(** * aldy/lpinterface.py: a common interface over ILP solver engines

    Shallow embedding of [src/aldy/lpinterface.py] and the properties its
    specification states about it.

    Conventions of the embedding.
    - A Python [str] is a [string]; one [ascii] stands for one character.
    - Python numbers that reach the solver (objective values, bounds, the
      gap, coefficients) are exact rationals [Q]; the comparisons and the
      arithmetic are those the source writes, without IEEE rounding.
    - The solver engines (gurobipy, pyscipopt, ortools, mipshell) are not part
      of the repository.  An engine is a value of a record type holding the
      constants the adapter reads from the package and one function that maps
      the registered model to what the engine reports after [optimize].
    - Python exceptions are the constructors of [Exn]; a call that can raise
      returns a [result]. *)

From Stdlib Require Import ZArith QArith Qabs Qround List Bool Lia Lqa.
From Stdlib Require Import String Ascii DecimalString.
From Stdlib Require Import Sorted Permutation.
Import ListNotations.

Local Open Scope string_scope.
Local Open Scope Z_scope.
Local Open Scope Q_scope.

(** ** Python strings *)

Module PyStr.

(** [s.replace(old, new)] for a one-character [old]. *)
Fixpoint replace (old : ascii) (new : string) (s : string) : string :=
  match s with
  | EmptyString => EmptyString
  | String c s' =>
      if Ascii.eqb c old then new ++ replace old new s'
      else String c (replace old new s')
  end.

(** [s[:n]]. *)
Fixpoint take (n : nat) (s : string) : string :=
  match n, s with
  | O, _ => EmptyString
  | S _, EmptyString => EmptyString
  | S n', String c s' => String c (take n' s')
  end.

(** [c.lower()] on one ASCII character. *)
Definition lower_ascii (c : ascii) : ascii :=
  let n := nat_of_ascii c in
  if (65 <=? n)%nat && (n <=? 90)%nat then ascii_of_nat (n + 32) else c.

(** [s.lower()]. *)
Fixpoint lower (s : string) : string :=
  match s with
  | EmptyString => EmptyString
  | String c s' => String (lower_ascii c) (lower s')
  end.

(** [c in s] for a character [c]. *)
Fixpoint mem (c : ascii) (s : string) : bool :=
  match s with
  | EmptyString => false
  | String d s' => Ascii.eqb d c || mem c s'
  end.

(** [str(i)] for a non-negative integer. *)
Definition of_nat (i : nat) : string := NilZero.string_of_uint (Nat.to_uint i).

End PyStr.

(** ** [escape_name] *)

Definition escape_name (s : string) : string :=
  PyStr.take 200
    (PyStr.replace "/" "__" (PyStr.replace "-" "m" (PyStr.replace "." "" s))).

(** The three characters [escape_name] rewrites. *)
Definition special (c : ascii) : bool :=
  Ascii.eqb c "." || Ascii.eqb c "-" || Ascii.eqb c "/".

(** A name is [clean] when it holds none of them. *)
Fixpoint clean (s : string) : bool :=
  match s with
  | EmptyString => true
  | String c s' => negb (special c) && clean s'
  end.


(** ** Python values, exceptions and dictionaries *)

(** The Python values the interface hands around. *)
Inductive Value :=
| VBool (b : bool)
| VInt (z : Z)
| VFloat (q : Q)
| VStr (s : string).

(** [v == 1]: [True == 1] holds in Python. *)
Definition eq_one (v : Value) : bool :=
  match v with
  | VBool b => b
  | VInt z => (z =? 1)%Z
  | VFloat q => Qeq_bool q 1
  | VStr _ => false
  end.

(** [isinstance(v, bool)]. *)
Definition is_bool (v : Value) : bool :=
  match v with VBool _ => true | _ => false end.

Inductive Exn :=
| NoSolutionsError (arg : Value)
| ImportError (module : string)
| KeyError
| NameError (name : string)
| AttributeError (attr : string)
| TypeError
| Exception (msg : string).

Inductive result (A : Type) :=
| Ret (a : A)
| Raise (e : Exn).
Arguments Ret {A} a.
Arguments Raise {A} e.

(** [round(x)] of a float: to the nearest integer, ties to the even one. *)
Definition py_round (x : Q) : Z :=
  let f := Qfloor x in
  match Qcompare (x - inject_Z f) (1 # 2) with
  | Lt => f
  | Gt => (f + 1)%Z
  | Eq => if Z.even f then f else (f + 1)%Z
  end.

(** [a > b] and [a >= b] on numbers. *)
Definition Qgt_bool (a b : Q) : bool := negb (Qle_bool a b).
Definition Qge_bool (a b : Q) : bool := Qle_bool b a.

(** A [dict]: keys in insertion order, a later value for a key already
    present replaces the earlier one in place. *)
Section Dict.
Context {K V : Type} (eqb : K -> K -> bool).

Fixpoint dict_set (k : K) (v : V) (d : list (K * V)) : list (K * V) :=
  match d with
  | [] => [(k, v)]
  | (k', v') :: d' =>
      if eqb k' k then (k', v) :: d' else (k', v') :: dict_set k v d'
  end.

Fixpoint dict_get (k : K) (d : list (K * V)) : option V :=
  match d with
  | [] => None
  | (k', v') :: d' => if eqb k' k then Some v' else dict_get k d'
  end.

(** [{k: v for (k, v) in items}]. *)
Definition dict_of (items : list (K * V)) : list (K * V) :=
  fold_left (fun d kv => dict_set (fst kv) (snd kv) d) items [].

Definition keys (d : list (K * V)) : list K := map fst d.
Definition values (d : list (K * V)) : list V := map snd d.
End Dict.

(** Modelled from the spec: [sorted_tuple] is imported from [aldy.common],
    which is not among the sources; the specification says the selected names
    are "sorted for a canonical, comparison-stable representation".  Strings
    compare lexicographically by character code. *)
Fixpoint insert_sorted (x : string) (l : list string) : list string :=
  match l with
  | [] => [x]
  | y :: l' => if String.leb x y then x :: l else y :: insert_sorted x l'
  end.

Definition sorted_tuple (l : list string) : list string :=
  fold_right insert_sorted [] l.

(** The order [sorted_tuple] sorts by. *)
Definition str_le (a b : string) : Prop := String.leb a b = true.

(** [set(names)]: one copy of each element. *)
Definition py_set (l : list string) : list string := nodup string_dec l.

(** ** Data model: variables, linear expressions, constraints, the model *)

Inductive VType := BINARY | INTEGER | CONTINUOUS.

Definition VType_eqb (a b : VType) : bool :=
  match a, b with
  | BINARY, BINARY | INTEGER, INTEGER | CONTINUOUS, CONTINUOUS => true
  | _, _ => false
  end.

(** An upper bound; [Inf] is the engine's infinity ([self.INF]). *)
Inductive Bound := Fin (q : Q) | Inf.

(** A variable handle; [vid] is the identity the engine gives it. *)
Record Var := mkVar {
  vid : nat;
  v_name : string;
  v_vtype : VType;
  v_lb : Q;
  v_ub : Bound
}.

(** Linear expressions as the source builds them with [+], [-] and [*]. *)
Inductive Expr :=
| EConst (q : Q)
| EVar (v : Var)
| EAdd (a b : Expr)
| ESub (a b : Expr)
| EMul (c : Q) (e : Expr).

Inductive Sense := LE | GE | EQ.

(** [lhs <= rhs], [lhs >= rhs], [lhs == rhs]. *)
Record TempConstr := mkConstr {
  c_lhs : Expr;
  c_sense : Sense;
  c_rhs : Expr
}.

Definition le_ (a b : Expr) : TempConstr := mkConstr a LE b.
Definition ge_ (a b : Expr) : TempConstr := mkConstr a GE b.
Definition eq_ (a b : Expr) : TempConstr := mkConstr a EQ b.

(** The engines' [quicksum] / [Sum] / [sum_]: the sum of the items. *)
Definition sum_expr (es : list Expr) : Expr := fold_left EAdd es (EConst 0).

(** What an engine exposes after [optimize]; each adapter reads the fields
    its engine has. *)
Record Report := mkReport {
  r_status : Z;                      (* gurobipy [model.status], ortools [Solve()] *)
  r_getStatus : string;              (* pyscipopt [getStatus()] *)
  r_objVal : Q;                      (* the objective value *)
  r_x : nat -> Q;                    (* the value of each variable *)
  r_VerifySolution : Q -> bool -> bool;  (* ortools [VerifySolution] *)
}.

Inductive Direction := MINIMIZE | MAXIMIZE.

(** The engine's model object, [self.model]. *)
Record Model := mkModel {
  m_name : string;
  m_vars : list Var;
  m_constrs : list (TempConstr * option string);
  m_objective : option (Expr * Direction);
  m_params : list (string * string);
  m_transformed : bool;     (* pyscipopt: the problem is in its solved stage *)
  m_report : option Report  (* the last solve *)
}.

Definition new_model (name : string) : Model :=
  mkModel name [] [] None [] false None.

Definition set_vars (vs : list Var) (m : Model) : Model :=
  mkModel (m_name m) vs (m_constrs m) (m_objective m) (m_params m)
          (m_transformed m) (m_report m).
Definition set_constrs (cs : list (TempConstr * option string)) (m : Model) : Model :=
  mkModel (m_name m) (m_vars m) cs (m_objective m) (m_params m)
          (m_transformed m) (m_report m).
Definition set_objective (o : option (Expr * Direction)) (m : Model) : Model :=
  mkModel (m_name m) (m_vars m) (m_constrs m) o (m_params m)
          (m_transformed m) (m_report m).
Definition set_param (k v : string) (m : Model) : Model :=
  mkModel (m_name m) (m_vars m) (m_constrs m) (m_objective m)
          ((k, v) :: m_params m) (m_transformed m) (m_report m).
Definition set_transformed (b : bool) (m : Model) : Model :=
  mkModel (m_name m) (m_vars m) (m_constrs m) (m_objective m) (m_params m)
          b (m_report m).
Definition set_report (r : Report) (m : Model) : Model :=
  mkModel (m_name m) (m_vars m) (m_constrs m) (m_objective m) (m_params m)
          (m_transformed m) (Some r).

(** The engine side of [addVar] and [addConstr]: the new variable gets the
    next free identity, the constraint is appended. *)
Definition engine_addVar (name : string) (vt : VType) (lb : Q) (ub : Bound)
    (m : Model) : Var * Model :=
  let v := mkVar (List.length (m_vars m)) name vt lb ub in
  (v, set_vars (m_vars m ++ [v]) m).

Definition engine_addConstr (c : TempConstr) (name : option string)
    (m : Model) : Model :=
  set_constrs (m_constrs m ++ [(c, name)]) m.

(** The value the last solve gave a variable ([var.x], [getVal(var)],
    [var.solution_value()]); 0 before any solve. *)
Definition var_x (m : Model) (v : Var) : Q :=
  match m_report m with
  | Some r => r_x r (vid v)
  | None => 0
  end.

(** Evaluation of expressions and constraints under an assignment. *)
Fixpoint eval (rho : nat -> Q) (e : Expr) : Q :=
  match e with
  | EConst q => q
  | EVar v => rho (vid v)
  | EAdd a b => eval rho a + eval rho b
  | ESub a b => eval rho a - eval rho b
  | EMul c a => c * eval rho a
  end.

Definition holds (rho : nat -> Q) (c : TempConstr) : Prop :=
  match c_sense c with
  | LE => eval rho (c_lhs c) <= eval rho (c_rhs c)
  | GE => eval rho (c_rhs c) <= eval rho (c_lhs c)
  | EQ => eval rho (c_lhs c) == eval rho (c_rhs c)
  end.

Definition holdsb (rho : nat -> Q) (c : TempConstr) : bool :=
  match c_sense c with
  | LE => Qle_bool (eval rho (c_lhs c)) (eval rho (c_rhs c))
  | GE => Qle_bool (eval rho (c_rhs c)) (eval rho (c_lhs c))
  | EQ => Qeq_bool (eval rho (c_lhs c)) (eval rho (c_rhs c))
  end.

(** The sum and the product of the values of a list of variables, and the
    0/1 values a binary variable can take. *)
Definition sum_of (rho : nat -> Q) (vs : list Var) : Q :=
  fold_right (fun v s => rho (vid v) + s) 0 vs.

Definition product_of (rho : nat -> Q) (vs : list Var) : Q :=
  fold_right (fun v p => rho (vid v) * p) 1 vs.

Definition zero_one (rho : nat -> Q) (v : Var) : Prop :=
  rho (vid v) == 0 \/ rho (vid v) == 1.

(** ** The interface every adapter implements *)

(** The keyword arguments of [addVar]. *)
Record VarArgs := mkVarArgs {
  kw_lb : option Q;
  kw_ub : option Bound;
  kw_vtype : option string;
  kw_name : option string;
  kw_update : option bool
}.

(** The result of a drained [solve]: the value or the exception, and the
    model as the call left it. *)
Definition Solved : Type := result (string * Q) * Model.

(** The methods [abssum], [prod] and [solutions] reach through [self];
    [Self.solve self init m] reads [self.solve(init)] with [m] the state of
    [self.model] at the call. *)
Module Self.
Record Adapter := mkAdapter {
  addConstr : TempConstr -> option string -> Model -> Model;
  addVar : VarArgs -> Model -> Var * Model;
  setObjective : Expr -> string -> Model -> Model;
  quicksum : list Expr -> Expr;
  update : Model -> Model;
  varName : Var -> string;
  solve : option (Model -> Model) -> Model -> Solved;
  getValue : Model -> Var -> Value;
  variables : Model -> list Var;
  is_binary : Model -> Var -> bool;
  change_model : Model -> Model
}.
End Self.
Definition Adapter : Type := Self.Adapter.

Definition SOLVER_PRECISON : Q := 1 # 100000.

(** [abs(obj - ub) >= SOLVER_PRECISON and obj > ub], the test that ends
    the enumeration. *)
Definition beyond (obj ub : Q) : bool :=
  Qge_bool (Qabs (obj - ub)) SOLVER_PRECISON && Qgt_bool obj ub.

(** [init(self.model)] when [init is not None]. *)
Definition run_init (init : option (Model -> Model)) (m : Model) : Model :=
  match init with
  | Some f => f m
  | None => m
  end.

(** An emitted solution: status, objective, sorted names of the binary
    variables that are set. *)
Definition Solution : Type := string * Q * list string.

Definition sol_status (s : Solution) : string := fst (fst s).
Definition sol_obj (s : Solution) : Q := snd (fst s).
Definition sol_names (s : Solution) : list string := snd s.

(** How a drained generator ended: by returning, by an exception that reaches
    the consumer, or cut at the recursion budget (every emitted element costs
    one nested generator frame). *)
Inductive Ending :=
| StopIteration
| Raised (e : Exn)
| OutOfFuel.

(** The parts of a drained generator. *)
Definition emitted (t : list Solution * Ending * Model) : list Solution :=
  fst (fst t).
Definition ending (t : list Solution * Ending * Model) : Ending :=
  snd (fst t).
Definition final (t : list Solution * Ending * Model) : Model := snd t.

(** [not limit]: [None] and [0] are falsy. *)
Definition not_limit (limit : option Z) : bool :=
  match limit with
  | None => true
  | Some n => (n =? 0)%Z
  end.

(** [iteration + 1 < limit], evaluated only when [limit] is truthy. *)
Definition below_limit (iteration : Z) (limit : option Z) : bool :=
  match limit with
  | None => false
  | Some n => (iteration + 1 <? n)%Z
  end.

(** A solver object: the adapter class and the state of its [self.model]. *)
Record Solver := mkSolver {
  s_self : Adapter;
  s_model : Model
}.

(** [importlib.import_module(name)]: the package when it is installed. *)
Definition import_module {A : Type} (name : string) (installed : option A)
  : result A :=
  match installed with
  | Some pkg => Ret pkg
  | None => Raise (ImportError name)
  end.

(** ** gurobipy and the [Gurobi] adapter *)

(** The part of the gurobipy package the adapter reads: the attributes of
    [GRB.status] (name and value, as [dir] lists them), [GRB.INFEASIBLE],
    and what [optimize] reports for a model. *)
Record GurobiPy := mkGurobiPy {
  GRB_status : list (string * Z);
  GRB_INFEASIBLE : Z;
  grb_optimize : Model -> Report
}.

Module Gurobi.

Section Engine.
Variable gurobipy : GurobiPy.

(** [{getattr(GRB.status, v): v for v in dir(GRB.status) if v[:2] != '__'}] *)
Definition GUROBI_STATUS : list (Z * string) :=
  dict_of Z.eqb
    (map (fun vc => (snd vc, fst vc))
         (filter (fun vc => negb (String.eqb (PyStr.take 2 (fst vc)) "__"))
                 (GRB_status gurobipy))).

(** [self.model.update()]: the engine folds pending changes in; the
    embedding registers variables and constraints at once. *)
Definition update (m : Model) : Model := m.

Definition addConstr (c : TempConstr) (name : option string) (m : Model)
  : Model :=
  engine_addConstr c (option_map escape_name name) m.

(** ['B'] and ['I'] become [GRB.BINARY] and [GRB.INTEGER]; any other
    [vtype] reaches the engine as given, which reads it as continuous, its
    default.  The engine's defaults are [lb = 0], [ub = INF], [name = '']. *)
Definition addVar (kw : VarArgs) (m : Model) : Var * Model :=
  let vtype :=
    match kw_vtype kw with
    | Some t => if String.eqb t "B" then BINARY
                else if String.eqb t "I" then INTEGER
                else CONTINUOUS
    | None => CONTINUOUS
    end in
  let name := match kw_name kw with Some n => escape_name n | None => "" end in
  let upd := match kw_update kw with Some u => u | None => true end in
  let lb := match kw_lb kw with Some l => l | None => 0 end in
  let ub := match kw_ub kw with Some u => u | None => Inf end in
  let (v, m1) := engine_addVar name vtype lb ub m in
  (v, if upd then update m1 else m1).

Definition setObjective (objective : Expr) (method : string) (m : Model)
  : Model :=
  update (set_objective
            (Some (objective,
                   if String.eqb method "min" then MINIMIZE else MAXIMIZE)) m).

Definition quicksum (expr : list Expr) : Expr := sum_expr expr.

Definition varName (var : Var) : string := v_name var.

Definition solve (init : option (Model -> Model)) (m : Model) : Solved :=
  let m := set_param "outputFlag" "0" m in
  let m := set_param "logFile" "" m in
  let m := run_init init m in
  let r := grb_optimize gurobipy m in
  let m := set_report r m in
  match dict_get Z.eqb (r_status r) GUROBI_STATUS with
  | None => (Raise KeyError, m)
  | Some status =>
      if (r_status r =? GRB_INFEASIBLE gurobipy)%Z
      then (Raise (NoSolutionsError (VStr status)), m)
      else (Ret (PyStr.lower status, r_objVal r), m)
  end.

Definition getValue (m : Model) (var : Var) : Value :=
  if VType_eqb (v_vtype var) BINARY then
    VBool (py_round (var_x m var) >? 0)%Z
  else if VType_eqb (v_vtype var) INTEGER then
    VInt (py_round (var_x m var))
  else VFloat (var_x m var).

Definition variables (m : Model) : list Var := m_vars m.

Definition is_binary (m : Model) (v : Var) : bool :=
  VType_eqb (v_vtype v) BINARY.

Definition change_model (m : Model) : Model := m.

Definition adapter : Adapter :=
  Self.mkAdapter addConstr addVar setObjective quicksum update varName
                 solve getValue variables is_binary change_model.
End Engine.

(** [Gurobi(name, prev_model)]: a fresh, reset model unless one is given. *)
Definition __init__ (installed : option GurobiPy) (name : string)
    (prev_model : option Model) : result Solver :=
  match import_module "gurobipy" installed with
  | Raise e => Raise e
  | Ret gurobipy =>
      match prev_model with
      | Some prev => Ret (mkSolver (adapter gurobipy) prev)
      | None => Ret (mkSolver (adapter gurobipy) (new_model name))
      end
  end.

(** The methods below are written once, in the base class, and run on
    whichever adapter [self] is. *)
Section Inherited.
Variable self : Adapter.

(** The loop of [abssum]; [i] is the counter of [enumerate]. *)
Fixpoint abssum_loop (coeffs : option (list (string * Q))) (i : nat)
    (vars : list Var) (vv : list Expr) (m : Model) : list Expr * Model :=
  match vars with
  | [] => (vv, m)
  | v :: vars' =>
      let name := Self.varName self v in
      let coeff :=
        match coeffs with
        | None => 1
        | Some d => match dict_get String.eqb name d with
                    | None => 1
                    | Some c => c
                    end
        end in
      let (absvar, m1) :=
        Self.addVar self
          (mkVarArgs (Some 0) None None (Some ("ABS_" ++ name)) (Some false)) m in
      let vv := (vv ++ [EMul coeff (EVar absvar)])%list in
      let m2 := Self.addConstr self (ge_ (EAdd (EVar absvar) (EVar v)) (EConst 0))
                  (Some ("CABSL_" ++ PyStr.of_nat i)) m1 in
      let m3 := Self.addConstr self (ge_ (ESub (EVar absvar) (EVar v)) (EConst 0))
                  (Some ("CABSR_" ++ PyStr.of_nat i)) m2 in
      abssum_loop coeffs (S i) vars' vv m3
  end.

Definition abssum (vars : list Var) (coeffs : option (list (string * Q)))
    (m : Model) : Expr * Model :=
  let (vv, m1) := abssum_loop coeffs 0 vars [] m in
  (Self.quicksum self vv, Self.update self m1).

(** [len(terms) - 1] and [len(vv) - 1]. *)
Definition len_minus_1 {A} (l : list A) : Q :=
  inject_Z (Z.of_nat (List.length l) - 1).

Definition prod (res : Var) (terms : list Var) (m : Model) : Var * Model :=
  let m1 := fold_left
              (fun m v => Self.addConstr self (le_ (EVar res) (EVar v)) None m)
              terms m in
  let m2 := Self.addConstr self
              (ge_ (EVar res)
                   (ESub (Self.quicksum self (map EVar terms))
                         (EConst (len_minus_1 terms))))
              None m1 in
  (res, m2).

(** [{self.varName(v): v for v in self.variables()
      if self.is_binary(v) and self.getValue(v) == 1}] *)
Definition selected (m : Model) : list (string * Var) :=
  dict_of String.eqb
    (map (fun v => (Self.varName self v, v))
         (filter (fun v => Self.is_binary self m v
                           && eq_one (Self.getValue self m v))
                 (Self.variables self m))).

(** [self.quicksum(vv.values()) <= len(vv) - 1] *)
Definition exclusion (vv : list (string * Var)) : TempConstr :=
  le_ (Self.quicksum self (map EVar (values vv))) (EConst (len_minus_1 vv)).

(** The generator [solutions], drained: the elements it yields in order,
    how it ends, and the model it leaves.  [fuel] bounds the depth of
    [yield from]. *)
Fixpoint solutions (fuel : nat) (gap : Q) (best_obj : option Q)
    (limit : option Z) (iteration : Z) (init : option (Model -> Model))
    (m : Model) : list Solution * Ending * Model :=
  match fuel with
  | O => ([], OutOfFuel, m)
  | S fuel' =>
      match Self.solve self init m with
      | (Raise (NoSolutionsError _), m1) => ([], StopIteration, m1)
      | (Raise e, m1) => ([], Raised e, m1)
      | (Ret (status, obj), m1) =>
          let best_obj := match best_obj with None => obj | Some b => b end in
          if negb (String.eqb status "optimal") then ([], StopIteration, m1)
          else
            let ub := (1 + gap) * best_obj in
            if beyond obj ub then ([], StopIteration, m1)
            else
              let vv := selected m1 in
              let y := (status, obj, sorted_tuple (py_set (keys vv))) in
              if not_limit limit || below_limit iteration limit then
                let m2 := Self.change_model self m1 in
                let m3 := Self.addConstr self (exclusion vv) None m2 in
                let '(rest, e, mf) :=
                  solutions fuel' gap (Some best_obj) limit (iteration + 1)
                            init m3 in
                (y :: rest, e, mf)
              else ([y], StopIteration, m1)
      end
  end.
End Inherited.

End Gurobi.

(** What [abssum] is to build, in the words of its description.  The
    coefficient of a variable is looked up by its name and is 1 when absent;
    the variable [x], met at position [i] when the model holds [id] variables,
    gets the auxiliary variable [abs_var id x] with lower bound 0 and the two
    constraints [a + x >= 0] and [a - x >= 0]. *)
Definition coeff_of (coeffs : option (list (string * Q))) (name : string) : Q :=
  match coeffs with
  | None => 1
  | Some d => match dict_get String.eqb name d with
              | None => 1
              | Some c => c
              end
  end.

Definition abs_var (id : nat) (x : Var) : Var :=
  mkVar id (escape_name ("ABS_" ++ v_name x)) CONTINUOUS 0 Inf.

Definition abs_constraints (i : nat) (x a : Var)
  : list (TempConstr * option string) :=
  [ (ge_ (EAdd (EVar a) (EVar x)) (EConst 0),
     Some (escape_name ("CABSL_" ++ PyStr.of_nat i)));
    (ge_ (ESub (EVar a) (EVar x)) (EConst 0),
     Some (escape_name ("CABSR_" ++ PyStr.of_nat i))) ].

Fixpoint abs_vars (id : nat) (xs : list Var) : list Var :=
  match xs with
  | [] => []
  | x :: xs' => abs_var id x :: abs_vars (S id) xs'
  end.

Fixpoint abs_rows (i id : nat) (xs : list Var)
  : list (TempConstr * option string) :=
  match xs with
  | [] => []
  | x :: xs' => (abs_constraints i x (abs_var id x) ++ abs_rows (S i) (S id) xs')%list
  end.

Fixpoint abs_terms (coeffs : option (list (string * Q))) (id : nat)
    (xs : list Var) : list Expr :=
  match xs with
  | [] => []
  | x :: xs' =>
      EMul (coeff_of coeffs (v_name x)) (EVar (abs_var id x))
      :: abs_terms coeffs (S id) xs'
  end.

(** The weighted sum of absolute values, [sum of c_i * |x_i|]. *)
Definition weighted_abs (coeffs : option (list (string * Q))) (rho : nat -> Q)
    (xs : list Var) : Q :=
  fold_right (fun x s => coeff_of coeffs (v_name x) * Qabs (rho (vid x)) + s) 0 xs.

(** The assignment that keeps [rho] on the first [base] variables and gives
    the auxiliary variable of the k-th [x] the value [|x|]. *)
Definition with_abs (rho : nat -> Q) (base : nat) (xs : list Var) : nat -> Q :=
  fun id =>
    if (id <? base)%nat then rho id
    else match nth_error xs (id - base) with
         | Some x => Qabs (rho (vid x))
         | None => rho id
         end.

(** The constraints [prod] is to register for [res] and [terms]:
    [res <= term] for every term, then [res >= sum(terms) - (len(terms) - 1)]. *)
Definition prod_constraints (res : Var) (terms : list Var)
  : list (TempConstr * option string) :=
  (map (fun v => (le_ (EVar res) (EVar v), @None string)) terms
   ++ [(ge_ (EVar res)
            (ESub (sum_expr (map EVar terms))
                  (EConst (inject_Z (Z.of_nat (List.length terms) - 1)))),
        None)])%list.

(** The two things one frame of [solutions] produces besides the recursive
    call: the element it yields for the solved model [m1], and the model it
    hands to the next solve. *)
Definition element (self : Adapter) (status : string) (obj : Q) (m1 : Model)
  : Solution :=
  (status, obj, sorted_tuple (py_set (keys (Gurobi.selected self m1)))).

Definition cut (self : Adapter) (m1 : Model) : Model :=
  Self.addConstr self (Gurobi.exclusion self (Gurobi.selected self m1)) None
                 (Self.change_model self m1).

(** "Minimizing the expression [abssum] returns attains the weighted sum of
    absolute values": whatever values [rho] fixes for the variables the model
    holds already, no assignment that agrees with [rho] on them and satisfies
    the added constraints makes the expression smaller than that sum, and one
    such assignment, within the bounds of the added variables, makes it equal
    to the sum. *)
Definition abssum_minimum (self : Adapter) (vars : list Var)
    (coeffs : option (list (string * Q))) (m : Model) : Prop :=
  let base := List.length (m_vars m) in
  let e := fst (Gurobi.abssum self vars coeffs m) in
  let m' := snd (Gurobi.abssum self vars coeffs m) in
  let added := skipn (List.length (m_constrs m)) (m_constrs m') in
  let fresh := skipn base (m_vars m') in
  forall rho : nat -> Q,
    (forall rho' : nat -> Q,
        (forall id, (id < base)%nat -> rho' id == rho id) ->
        (forall c, In c added -> holds rho' (fst c)) ->
        weighted_abs coeffs rho vars <= eval rho' e)
    /\ (exists rho' : nat -> Q,
          (forall id, (id < base)%nat -> rho' id == rho id)
          /\ (forall c, In c added -> holds rho' (fst c))
          /\ (forall a, In a fresh -> v_lb a <= rho' (vid a))
          /\ eval rho' e == weighted_abs coeffs rho vars).

(** What the statement about distinct selections asks of its surroundings.
    A gurobipy engine is [exact] when the values it reports under a status
    that reads [optimal] satisfy every constraint of the model it was given
    and are 0 or 1 on its binary variables; an [init] callback [keeps_model]
    when it leaves the variables and the constraints alone (it is meant to
    set solver parameters); [binary_names] are the names of the model's
    binary variables. *)
Definition exact (g : GurobiPy) : Prop :=
  forall (m : Model) (status : string),
    dict_get Z.eqb (r_status (grb_optimize g m)) (Gurobi.GUROBI_STATUS g)
    = Some status ->
    PyStr.lower status = "optimal" ->
    (forall c name, In (c, name) (m_constrs m) -> holds (r_x (grb_optimize g m)) c)
    /\ (forall v, In v (m_vars m) -> v_vtype v = BINARY ->
                  zero_one (r_x (grb_optimize g m)) v).

Definition keeps_model (init : option (Model -> Model)) : Prop :=
  forall f, init = Some f ->
            forall m, m_vars (f m) = m_vars m /\ m_constrs (f m) = m_constrs m.

Definition binary_names (m : Model) : list string :=
  map v_name (filter (fun v => VType_eqb (v_vtype v) BINARY) (m_vars m)).

(** ** pyscipopt and the [SCIP] adapter *)

Record PySCIPOpt := mkPySCIPOpt {
  scip_optimize : Model -> Report
}.

Module SCIP.
Section Engine.
Variable pyscipopt : PySCIPOpt.

Definition update (m : Model) : Model := m.

Definition addConstr (c : TempConstr) (name : option string) (m : Model)
  : Model :=
  engine_addConstr c (option_map escape_name name) m.

(** The [update] keyword is dropped, the rest goes to the engine, whose
    defaults are [vtype = 'C'], [lb = 0], no upper bound, [name = '']. *)
Definition addVar (kw : VarArgs) (m : Model) : Var * Model :=
  let name := match kw_name kw with Some n => escape_name n | None => "" end in
  let vtype :=
    match kw_vtype kw with
    | Some t => if String.eqb t "B" then BINARY
                else if String.eqb t "I" then INTEGER
                else CONTINUOUS
    | None => CONTINUOUS
    end in
  let lb := match kw_lb kw with Some l => l | None => 0 end in
  let ub := match kw_ub kw with Some u => u | None => Inf end in
  engine_addVar name vtype lb ub m.

Definition setObjective (objective : Expr) (method : string) (m : Model)
  : Model :=
  set_objective
    (Some (objective, if String.eqb method "min" then MINIMIZE else MAXIMIZE)) m.

Definition quicksum (expr : list Expr) : Expr := sum_expr expr.

Definition solve (init : option (Model -> Model)) (m : Model) : Solved :=
  let m := set_param "hideOutput" "" m in
  let m := run_init init m in
  let r := scip_optimize pyscipopt m in
  let m := set_transformed true (set_report r m) in
  let status := r_getStatus r in
  if String.eqb status "infeasible"
  then (Raise (NoSolutionsError (VStr status)), m)
  else (Ret (PyStr.lower status, r_objVal r), m).

Definition varName (var : Var) : string := v_name var.

Definition getValue (m : Model) (var : Var) : Value :=
  let x := var_x m var in
  if VType_eqb (v_vtype var) BINARY then VBool (py_round x >? 0)%Z
  else if VType_eqb (v_vtype var) INTEGER then VInt (py_round x)
  else VFloat x.

Definition variables (m : Model) : list Var := m_vars m.

Definition is_binary (m : Model) (v : Var) : bool :=
  VType_eqb (v_vtype v) BINARY.

(** [self.model.freeTransform()] *)
Definition change_model (m : Model) : Model := set_transformed false m.

Definition adapter : Adapter :=
  Self.mkAdapter addConstr addVar setObjective quicksum update varName
                 solve getValue variables is_binary change_model.
End Engine.

Definition __init__ (installed : option PySCIPOpt) (name : string)
  : result Solver :=
  match import_module "pyscipopt" installed with
  | Raise e => Raise e
  | Ret pyscipopt => Ret (mkSolver (adapter pyscipopt) (new_model name))
  end.
End SCIP.

(** ** ortools and the [CBC] adapter *)

(** The status codes of [pywraplp.Solver] and what [Solve] reports. *)
Record ORTools := mkORTools {
  OPTIMAL : Z;
  FEASIBLE : Z;
  INFEASIBLE : Z;
  UNBOUNDED : Z;
  ABNORMAL : Z;
  NOT_SOLVED : Z;
  cbc_Solve : Model -> Report
}.

Module CBC.
Section Engine.
Variable ortools : ORTools.
(** [SOLUTION_PRECISION] is imported from [aldy.common], which is not
    among the sources. *)
Variable SOLUTION_PRECISION : Q.

(** [collections.defaultdict(lambda: 'UNKNOWN', {...})] *)
Definition STATUS_items : list (Z * string) :=
  dict_of Z.eqb
    [ (OPTIMAL ortools, "OPTIMAL"); (FEASIBLE ortools, "FEASIBLE");
      (INFEASIBLE ortools, "INFEASIBLE"); (UNBOUNDED ortools, "UNBOUNDED");
      (ABNORMAL ortools, "ABNORMAL"); (NOT_SOLVED ortools, "NOT_SOLVED") ].

Definition STATUS (code : Z) : string :=
  match dict_get Z.eqb code STATUS_items with
  | Some name => name
  | None => "UNKNOWN"
  end.

Definition update (m : Model) : Model := m.

Definition addConstr (c : TempConstr) (name : option string) (m : Model)
  : Model :=
  engine_addConstr c (option_map escape_name name) m.

(** [BoolVar(name)] is an integer variable with bounds 0 and 1;
    [IntVar] and [NumVar] take the bounds given. *)
Definition addVar (kw : VarArgs) (m : Model) : Var * Model :=
  let name := escape_name (match kw_name kw with Some n => n | None => "" end) in
  let lb := match kw_lb kw with Some l => l | None => 0 end in
  let ub := match kw_ub kw with Some u => u | None => Inf end in
  match kw_vtype kw with
  | Some t =>
      if String.eqb t "B" then engine_addVar name INTEGER 0 (Fin 1) m
      else if String.eqb t "I" then engine_addVar name INTEGER lb ub m
      else engine_addVar name CONTINUOUS lb ub m
  | None => engine_addVar name CONTINUOUS lb ub m
  end.

Definition setObjective (objective : Expr) (method : string) (m : Model)
  : Model :=
  if String.eqb method "min"
  then set_objective (Some (objective, MINIMIZE)) m
  else set_objective (Some (objective, MAXIMIZE)) m.

Definition quicksum (expr : list Expr) : Expr := sum_expr expr.

Definition solve (init : option (Model -> Model)) (m : Model) : Solved :=
  let m := run_init init m in
  let r := cbc_Solve ortools m in
  let m := set_report r m in
  let status := r_status r in
  if (status =? INFEASIBLE ortools)%Z
  then (Raise (NoSolutionsError (VInt status)), m)
  else if negb (r_VerifySolution r SOLVER_PRECISON true)
  then (Raise (NoSolutionsError (VInt status)), m)
  else (Ret (PyStr.lower (STATUS status), r_objVal r), m).

Definition varName (var : Var) : string := v_name var.

(** [abs(var.lb()) < SOLUTION_PRECISION and
     abs(1 - var.ub()) < SOLUTION_PRECISION] *)
Definition unit_bounds (var : Var) : bool :=
  Qgt_bool SOLUTION_PRECISION (Qabs (v_lb var))
  && match v_ub var with
     | Fin u => Qgt_bool SOLUTION_PRECISION (Qabs (1 - u))
     | Inf => false
     end.

Definition getValue (m : Model) (var : Var) : Value :=
  let x := var_x m var in
  if VType_eqb (v_vtype var) INTEGER then
    let x := py_round x in
    if unit_bounds var then VBool (x >? 0)%Z else VInt x
  else VFloat x.

Definition variables (m : Model) : list Var := m_vars m.

Definition is_binary (m : Model) (v : Var) : bool := is_bool (getValue m v).

Definition change_model (m : Model) : Model := m.

Definition adapter : Adapter :=
  Self.mkAdapter addConstr addVar setObjective quicksum update varName
                 solve getValue variables is_binary change_model.
End Engine.

Definition __init__ (installed : option ORTools) (SOLUTION_PRECISION : Q)
    (name : string) : result Solver :=
  match import_module "ortools.linear_solver.pywraplp" installed with
  | Raise e => Raise e
  | Ret ortools =>
      Ret (mkSolver (adapter ortools SOLUTION_PRECISION) (new_model name))
  end.
End CBC.

(** ** Name lookup inside the module *)

Module PyScope.

(** The kinds of object the module's top level binds: functions and
    classes the file defines, and objects it imports. *)
Inductive PyObj :=
| OFunction (name : string)
| OClass (name : string) (attrs : list string)
| OFloat (q : Q)
| OImported (name : string).

(** The global names of [lpinterface] once the module is loaded, in the
    order the file binds them. *)
Definition module_globals : list (string * PyObj) :=
  [ ("Any", OImported "typing.Any"); ("Optional", OImported "typing.Optional");
    ("Dict", OImported "typing.Dict"); ("Tuple", OImported "typing.Tuple");
    ("List", OImported "typing.List"); ("Iterable", OImported "typing.Iterable");
    ("Callable", OImported "typing.Callable"); ("Set", OImported "typing.Set");
    ("importlib", OImported "importlib");
    ("collections", OImported "collections");
    ("log", OImported "aldy.common.log");
    ("sorted_tuple", OImported "aldy.common.sorted_tuple");
    ("SOLUTION_PRECISION", OImported "aldy.common.SOLUTION_PRECISION");
    ("SOLVER_PRECISON", OFloat SOLVER_PRECISON);
    ("escape_name", OFunction "escape_name");
    ("NoSolutionsError", OClass "NoSolutionsError" []);
    ("Gurobi", OClass "Gurobi"
       ["__init__"; "addConstr"; "addVar"; "setObjective"; "quicksum"; "update";
        "varName"; "abssum"; "prod"; "solve"; "getValue"; "dump"; "variables";
        "is_binary"; "change_model"; "solutions"]);
    ("SCIP", OClass "SCIP"
       ["__init__"; "addConstr"; "addVar"; "setObjective"; "quicksum"; "update";
        "varName"; "abssum"; "prod"; "solve"; "getValue"; "dump"; "variables";
        "is_binary"; "change_model"; "solutions"]);
    ("CBC", OClass "CBC"
       ["__init__"; "addConstr"; "addVar"; "setObjective"; "quicksum"; "update";
        "varName"; "abssum"; "prod"; "solve"; "getValue"; "dump"; "variables";
        "is_binary"; "change_model"; "solutions"]);
    ("MIPCL", OClass "MIPCL"
       ["__init__"; "addConstr"; "addVar"; "setObjective"; "quicksum"; "update";
        "varName"; "abssum"; "prod"; "solve"; "getValue"; "dump"; "variables";
        "vars"; "is_binary"; "change_model"; "solutions"]);
    ("model", OFunction "model") ].

(** A name that is not local to the function is looked up in the module's
    globals, then among the builtins; neither [model] nor [status] is a
    builtin, and the code looks up no other name this way. *)
Definition load_global (name : string) : result PyObj :=
  match dict_get String.eqb name module_globals with
  | Some o => Ret o
  | None => Raise (NameError name)
  end.

(** A name inside a function whose local names are [locals]. *)
Definition load_name (locals : list (string * PyObj)) (name : string)
  : result PyObj :=
  match dict_get String.eqb name locals with
  | Some o => Ret o
  | None => load_global name
  end.

Definition dunder (attr : string) : bool :=
  String.eqb (PyStr.take 2 attr) "__".

(** [obj.attr].  A function defined with [def] has the double-underscore
    attributes only, since the module never sets one on it; a class has its
    methods besides; what an imported object has is the package's matter and
    is taken as present. *)
Definition getattr (o : PyObj) (attr : string) : result PyObj :=
  match o with
  | OFunction f =>
      if dunder attr then Ret (OImported (f ++ "." ++ attr))
      else Raise (AttributeError attr)
  | OClass c attrs =>
      if dunder attr || existsb (String.eqb attr) attrs
      then Ret (OImported (c ++ "." ++ attr))
      else Raise (AttributeError attr)
  | OFloat _ =>
      if dunder attr then Ret (OImported ("float." ++ attr))
      else Raise (AttributeError attr)
  | OImported n => Ret (OImported (n ++ "." ++ attr))
  end.

(** Truth value of an object in a condition. *)
Definition truthy (o : PyObj) : bool :=
  match o with
  | OFloat q => negb (Qeq_bool q 0)
  | _ => true
  end.

Definition describe (o : PyObj) : Value :=
  match o with
  | OFunction n | OClass n _ | OImported n => VStr n
  | OFloat q => VFloat q
  end.

End PyScope.

(** ** mipshell and the [MIPCL] adapter *)

Record MipShell := mkMipShell {
  mip_optimize : Model -> Report
}.

Module MIPCL.
Section Engine.
Variable mip : MipShell.

Definition update (m : Model) : Model := m.

(** The body is [pass]. *)
Definition addConstr (c : TempConstr) (name : option string) (m : Model)
  : Model := m.

(** The local names of [solve] are its parameters; the condition reads
    [model], not [self.model], and the [raise] reads [status]. *)
Definition solve (init : option (Model -> Model)) (m : Model) : Solved :=
  let locals := [("self", PyScope.OImported "self");
                 ("init", PyScope.OImported "init")] in
  let m := run_init init m in
  let r := mip_optimize mip m in
  let m := set_report r m in
  match PyScope.load_name locals "model" with
  | Raise e => (Raise e, m)
  | Ret model =>
      match PyScope.getattr model "is_solutionOptimal" with
      | Raise e => (Raise e, m)
      | Ret flag =>
          if negb (PyScope.truthy flag) then
            match PyScope.load_name locals "status" with
            | Raise e => (Raise e, m)
            | Ret status => (Raise (NoSolutionsError (PyScope.describe status)), m)
            end
          else (Ret ("optimal", r_objVal r), m)
      end
  end.
End Engine.
End MIPCL.

(** ** The factory [model] *)

(** What the Python environment has installed, and the constant the module
    imports from [aldy.common]. *)
Record Environment := mkEnvironment {
  env_gurobipy : option GurobiPy;
  env_pyscipopt : option PySCIPOpt;
  env_ortools : option ORTools;
  env_SOLUTION_PRECISION : Q
}.

Module Factory.
Section Env.
Variable env : Environment.

(** [try: model = Gurobi(name) except ImportError: model = None]; the
    calls to [log] leave no trace in the result. *)
Definition test_gurobi (name : string) : result (option Solver) :=
  match Gurobi.__init__ (env_gurobipy env) name None with
  | Ret model => Ret (Some model)
  | Raise (ImportError _) => Ret None
  | Raise e => Raise e
  end.

Definition test_scip (name : string) : result (option Solver) :=
  match SCIP.__init__ (env_pyscipopt env) name with
  | Ret model => Ret (Some model)
  | Raise (ImportError _) => Ret None
  | Raise e => Raise e
  end.

Definition test_cbc (name : string) : result (option Solver) :=
  match CBC.__init__ (env_ortools env) (env_SOLUTION_PRECISION env) name with
  | Ret model => Ret (Some model)
  | Raise (ImportError _) => Ret None
  | Raise e => Raise e
  end.

(** What a local name of [model] is bound to. *)
Inductive Local :=
| LStr (s : string)
| LFun (f : string -> result (option Solver)).

(** [locals()] in the [else] branch: the parameters, the three nested
    functions and [fname]; the local [model] is not bound there. *)
Definition locals (name solver fname : string) : list (string * Local) :=
  [ ("name", LStr name); ("solver", LStr solver);
    ("test_gurobi", LFun test_gurobi); ("test_scip", LFun test_scip);
    ("test_cbc", LFun test_cbc); ("fname", LStr fname) ].

Definition no_solver_message : string :=
  "No ILP solver found. Aldy cannot operate without an ILP solver. Please install Gurobi, SCIP, or Google OR Tools.".

(** [model(name, solver)]; [Ret None] is a returned [None]. *)
Definition model (name solver : string) : result (option Solver) :=
  if String.eqb solver "any" then
    match test_gurobi name with
    | Raise e => Raise e
    | Ret model =>
        match (match model with None => test_scip name | Some _ => Ret model end) with
        | Raise e => Raise e
        | Ret model =>
            match (match model with None => test_cbc name | Some _ => Ret model end) with
            | Raise e => Raise e
            | Ret None => Raise (Exception no_solver_message)
            | Ret (Some s) => Ret (Some s)
            end
        end
    end
  else
    let fname := "test_" ++ solver in
    match dict_get String.eqb fname (locals name solver fname) with
    | Some (LFun f) => f name
    | Some (LStr _) => Raise TypeError
    | None => Raise (Exception ("ILP solver " ++ solver ++ " is not supported"))
    end.
End Env.
End Factory.

(** ** An exhaustive engine for 0/1 models

    A small exact engine to run the adapters on: it tries every 0/1
    assignment of the model's variables, keeps those that satisfy every
    constraint, and reports the first one of least cost. *)

Module Exhaustive.

(** All bit lists of length [n]. *)
Fixpoint bit_lists (n : nat) : list (list bool) :=
  match n with
  | O => [[]]
  | S n' => flat_map (fun l => [true :: l; false :: l]) (bit_lists n')
  end.

Definition rho_of (bits : list bool) : nat -> Q :=
  fun i => if nth i bits false then 1 else 0.

Definition feasible (m : Model) (rho : nat -> Q) : bool :=
  forallb (fun c => holdsb rho (fst c)) (m_constrs m).

Definition objective_value (m : Model) (rho : nat -> Q) : Q :=
  match m_objective m with
  | Some (e, _) => eval rho e
  | None => 0
  end.

(** The quantity to make small. *)
Definition cost (m : Model) (rho : nat -> Q) : Q :=
  match m_objective m with
  | Some (e, MINIMIZE) => eval rho e
  | Some (e, MAXIMIZE) => - eval rho e
  | None => 0
  end.

Fixpoint least (m : Model) (cur : list bool) (rest : list (list bool))
  : list bool :=
  match rest with
  | [] => cur
  | b :: rest' =>
      if Qgt_bool (cost m (rho_of cur)) (cost m (rho_of b))
      then least m b rest'
      else least m cur rest'
  end.

(** [optimal] and [infeasible] are the engine's two status codes, [text]
    their names as pyscipopt spells them. *)
Definition optimize (optimal infeasible : Z) (m : Model) : Report :=
  match filter (fun b => feasible m (rho_of b))
               (bit_lists (List.length (m_vars m))) with
  | [] => mkReport infeasible "infeasible" 0 (fun _ => 0) (fun _ _ => false)
  | b :: rest =>
      let rho := rho_of (least m b rest) in
      mkReport optimal "optimal" (objective_value m rho) rho (fun _ _ => true)
  end.

(** The status attributes of [GRB.status], as [dir] lists them. *)
Definition GRB_status_attrs : list (string * Z) :=
  [ ("CUTOFF", 6); ("INFEASIBLE", 3); ("INF_OR_UNBD", 4); ("INPROGRESS", 14);
    ("INTERRUPTED", 11); ("ITERATION_LIMIT", 7); ("LOADED", 1);
    ("NODE_LIMIT", 8); ("NUMERIC", 12); ("OPTIMAL", 2);
    ("SOLUTION_LIMIT", 10); ("SUBOPTIMAL", 13); ("TIME_LIMIT", 9);
    ("UNBOUNDED", 5); ("USER_OBJ_LIMIT", 15);
    ("__doc__", 0); ("__module__", 0) ]%Z.

Definition gurobipy : GurobiPy :=
  mkGurobiPy GRB_status_attrs 3 (optimize 2 3).

Definition pyscipopt : PySCIPOpt := mkPySCIPOpt (optimize 2 3).

Definition ortools : ORTools := mkORTools 0 1 2 3 4 6 (optimize 0 2).

(** An engine that always reports the same thing. *)
Definition constant_gurobipy (r : Report) : GurobiPy :=
  mkGurobiPy GRB_status_attrs 3 (fun _ => r).

End Exhaustive.

(** ** Concrete models and engines the statements are tried on *)

Module Scenario.

(** The Gurobi adapter over the exhaustive engine. *)
Definition G : Adapter := Gurobi.adapter Exhaustive.gurobipy.

Definition binary (name : string) : VarArgs :=
  mkVarArgs None None (Some "B") (Some name) None.

(** Two binary variables [x1], [x2]; minimize [x1 + x2] subject to
    [x1 + x2 >= 1]. *)
Definition two_binaries : Model :=
  let (x1, m) := Self.addVar G (binary "x1") (new_model "two") in
  let (x2, m) := Self.addVar G (binary "x2") m in
  let m := Self.setObjective G (EAdd (EVar x1) (EVar x2)) "min" m in
  Self.addConstr G (ge_ (EAdd (EVar x1) (EVar x2)) (EConst 1)) (Some "c.1") m.

(** No variable and the constraint [0 >= 1]. *)
Definition infeasible : Model :=
  Self.addConstr G (ge_ (EConst 0) (EConst 1)) None (new_model "none").

(** One continuous variable [x] with the coefficient -1. *)
Definition free (name : string) : VarArgs :=
  mkVarArgs (Some (-(100))) None None (Some name) None.

Definition one_free : Model := snd (Self.addVar G (free "x") (new_model "one")).

Definition x : Var := fst (Self.addVar G (free "x") (new_model "one")).

Definition negative : option (list (string * Q)) := Some [("x", -(1))].

Definition doubled : option (list (string * Q)) := Some [("x", 2)].

(** No solver package is installed. *)
Definition bare : Environment := mkEnvironment None None None (1 # 100).

(** An engine for the MIPCL adapter. *)
Definition mipshell : MipShell := mkMipShell (Exhaustive.optimize 2 3).

(** Two binary variables whose names [a.b] and [ab] sanitize to the same
    name, no constraint, a constant objective. *)
Definition same_names : Model :=
  let (a, m) := Self.addVar G (binary "a.b") (new_model "same") in
  let (b, m) := Self.addVar G (binary "ab") m in
  Self.setObjective G (EConst 0) "min" m.

(** A Gurobi engine that stops at its time limit with a solution of
    objective 1. *)
Definition timed_out : GurobiPy :=
  Exhaustive.constant_gurobipy
    (mkReport 9 "timelimit" 1 (fun _ => 0) (fun _ _ => true)).

(** A Gurobi engine that reports a status value [GRB.status] does not
    have. *)
Definition unlisted : GurobiPy :=
  Exhaustive.constant_gurobipy
    (mkReport 99 "" 0 (fun _ => 0) (fun _ _ => true)).

(** A CBC engine that reports OPTIMAL with a solution that fails
    [VerifySolution]. *)
Definition unverified_ortools : ORTools :=
  mkORTools 0 1 2 3 4 6
    (fun _ => mkReport 0 "" 1 (fun _ => 0) (fun _ _ => false)).

End Scenario.

(** ** Vocabulary of the further properties *)

(** What [addVar] does to a model: one more variable, the returned one, last
    in the list, numbered after those present, under a sanitized name;
    constraints and objective untouched. *)
Definition adds_one_variable (r : Var * Model) (m : Model) : Prop :=
  m_vars (snd r) = (m_vars m ++ [fst r])%list
  /\ vid (fst r) = List.length (m_vars m)
  /\ escape_name (v_name (fst r)) = v_name (fst r)
  /\ m_constrs (snd r) = m_constrs m
  /\ m_objective (snd r) = m_objective m.

(** The attributes of [GRB.status] that make it into [GUROBI_STATUS]: those
    whose name does not start with two underscores. *)
Definition status_attrs (g : GurobiPy) : list (string * Z) :=
  filter (fun vc => negb (String.eqb (PyStr.take 2 (fst vc)) "__")) (GRB_status g).

(** The six status codes the CBC adapter names. *)
Definition named_codes (o : ORTools) : list Z :=
  [OPTIMAL o; FEASIBLE o; INFEASIBLE o; UNBOUNDED o; ABNORMAL o; NOT_SOLVED o].

(** All the sub-sequences of a list, [2 ^ length l] of them. *)
Fixpoint sublists {A : Type} (l : list A) : list (list A) :=
  match l with
  | [] => [[]]
  | x :: l' => (map (cons x) (sublists l') ++ sublists l')%list
  end.

(** The selections a model can give rise to: the sorted tuples of the
    sub-sequences of its binary names. *)
Definition selections (m : Model) : list (list string) :=
  map (fun k => sorted_tuple (py_set k)) (sublists (binary_names m)).

(** A subclass that overrides [addConstr] and [solve] and inherits the rest,
    as [MIPCL] does with the methods modelled here. *)
Definition override (base : Adapter)
    (addConstr' : TempConstr -> option string -> Model -> Model)
    (solve' : option (Model -> Model) -> Model -> Solved) : Adapter :=
  Self.mkAdapter addConstr' (Self.addVar base) (Self.setObjective base)
                 (Self.quicksum base) (Self.update base) (Self.varName base)
                 solve' (Self.getValue base) (Self.variables base)
                 (Self.is_binary base) (Self.change_model base).

(** [MIPCL.is_binary(self, v)], [return var.type == self.mip.BIN]: the
    parameter is called [v], the body reads [var]. *)
Definition MIPCL_is_binary (v : Var) : result bool :=
  let locals := [("self", PyScope.OImported "self");
                 ("v", PyScope.OImported "v")] in
  match PyScope.load_name locals "var" with
  | Raise e => Raise e
  | Ret var =>
      match PyScope.getattr var "type" with
      | Raise e => Raise e
      | Ret t =>
          match PyScope.load_name locals "self" with
          | Raise e => Raise e
          | Ret self =>
              match PyScope.getattr self "mip" with
              | Raise e => Raise e
              | Ret mip =>
                  match PyScope.getattr mip "BIN" with
                  | Raise e => Raise e
                  | Ret BIN =>
                      match PyScope.describe t, PyScope.describe BIN with
                      | VStr a, VStr b => Ret (String.eqb a b)
                      | _, _ => Ret false
                      end
                  end
              end
          end
      end
  end.

(** The end of the vocabulary. *)

(** * Properties *)

Section EscapeName.

Lemma replace_absent old new s :
  PyStr.mem old s = false -> PyStr.replace old new s = s.
Proof.
  induction s as [|c s IH]; simpl; intros H; [reflexivity|].
  apply orb_false_iff in H. destruct H as [Hc Hs].
  rewrite Hc. now rewrite IH.
Qed.

Lemma mem_append c s t :
  PyStr.mem c (s ++ t) = PyStr.mem c s || PyStr.mem c t.
Proof.
  induction s as [|d s IH]; simpl; [reflexivity|].
  now rewrite IH, orb_assoc.
Qed.

(** After [replace old new], [old] is gone unless [new] brings it back. *)
Lemma replace_removes old new s :
  PyStr.mem old new = false -> PyStr.mem old (PyStr.replace old new s) = false.
Proof.
  intros Hnew. induction s as [|c s IH]; simpl; [reflexivity|].
  destruct (Ascii.eqb c old) eqn:E; simpl.
  - now rewrite mem_append, Hnew, IH.
  - now rewrite E, IH.
Qed.

(** A character other than [old] that is not in [new] and not in [s] is not
    in the replaced string either. *)
Lemma replace_keeps_absent c old new s :
  PyStr.mem c new = false -> PyStr.mem c s = false ->
  PyStr.mem c (PyStr.replace old new s) = false.
Proof.
  intros Hnew. induction s as [|d s IH]; simpl; [reflexivity|].
  intros H. apply orb_false_iff in H. destruct H as [Hd Hs].
  destruct (Ascii.eqb d old); simpl.
  - rewrite mem_append, Hnew. now apply IH.
  - rewrite Hd. now apply IH.
Qed.

Lemma clean_mem s :
  clean s = true <->
  PyStr.mem "." s = false /\ PyStr.mem "-" s = false /\ PyStr.mem "/" s = false.
Proof.
  induction s as [|c s IH]; simpl.
  - tauto.
  - unfold special. rewrite andb_true_iff, negb_true_iff, !orb_false_iff, IH.
    tauto.
Qed.

Lemma take_clean n s : clean s = true -> clean (PyStr.take n s) = true.
Proof.
  revert s. induction n as [|n IH]; intros [|c s]; simpl; try reflexivity.
  rewrite !andb_true_iff. intros [Hc Hs]. auto.
Qed.

Lemma take_take n s : PyStr.take n (PyStr.take n s) = PyStr.take n s.
Proof.
  revert s. induction n as [|n IH]; intros [|c s]; simpl; try reflexivity.
  now rewrite IH.
Qed.

Lemma replaced_clean s :
  clean (PyStr.replace "/" "__" (PyStr.replace "-" "m" (PyStr.replace "." "" s)))
  = true.
Proof.
  apply clean_mem. repeat split.
  - apply replace_keeps_absent; [reflexivity|].
    apply replace_keeps_absent; [reflexivity|].
    now apply replace_removes.
  - apply replace_keeps_absent; [reflexivity|].
    now apply replace_removes.
  - now apply replace_removes.
Qed.

Lemma escape_name_clean s : clean (escape_name s) = true.
Proof. unfold escape_name. apply take_clean, replaced_clean. Qed.

Lemma escape_name_of_clean s :
  clean s = true -> escape_name s = PyStr.take 200 s.
Proof.
  intros H. apply clean_mem in H. destruct H as (H1 & H2 & H3).
  unfold escape_name.
  rewrite (replace_absent "." "" s H1).
  rewrite (replace_absent "-" "m" s H2).
  now rewrite (replace_absent "/" "__" s H3).
Qed.

End EscapeName.

Example escape_name_example : escape_name "a.b-c/d" = "abmc__d".
Proof. reflexivity. Qed.

(** C8. Name sanitization is idempotent: for every string [s],
    [escape_name (escape_name s) = escape_name s]. *)
Theorem escape_name_idempotent (s : string) :
  escape_name (escape_name s) = escape_name s.
Proof.
  rewrite (escape_name_of_clean (escape_name s)) by apply escape_name_clean.
  unfold escape_name. apply take_take.
Qed.

(** ** [solve]: which outcomes are raised *)

Section Solve.

(** The model each [solve] hands to its engine. *)
Lemma Gurobi_solve_unfold g init m :
  let m' := run_init init (set_param "logFile" "" (set_param "outputFlag" "0" m)) in
  let r := grb_optimize g m' in
  Gurobi.solve g init m =
  match dict_get Z.eqb (r_status r) (Gurobi.GUROBI_STATUS g) with
  | None => (Raise KeyError, set_report r m')
  | Some status =>
      if (r_status r =? GRB_INFEASIBLE g)%Z
      then (Raise (NoSolutionsError (VStr status)), set_report r m')
      else (Ret (PyStr.lower status, r_objVal r), set_report r m')
  end.
Proof. reflexivity. Qed.

Lemma Gurobi_solve_report g init m :
  m_report (snd (Gurobi.solve g init m)) =
  Some (grb_optimize g
          (run_init init (set_param "logFile" "" (set_param "outputFlag" "0" m)))).
Proof.
  rewrite Gurobi_solve_unfold. cbv zeta.
  destruct (dict_get _ _ _); [destruct (_ =? _)%Z|]; reflexivity.
Qed.

Lemma SCIP_solve_report p init m :
  m_report (snd (SCIP.solve p init m)) =
  Some (scip_optimize p (run_init init (set_param "hideOutput" "" m))).
Proof.
  unfold SCIP.solve. cbv zeta. destruct (String.eqb _ _); reflexivity.
Qed.

Lemma CBC_solve_report o init m :
  m_report (snd (CBC.solve o init m)) = Some (cbc_Solve o (run_init init m)).
Proof.
  unfold CBC.solve. cbv zeta.
  destruct (_ =? _)%Z; [|destruct (negb _)]; reflexivity.
Qed.

Lemma Gurobi_solve_cases g init m r status :
  m_report (snd (Gurobi.solve g init m)) = Some r ->
  dict_get Z.eqb (r_status r) (Gurobi.GUROBI_STATUS g) = Some status ->
  (r_status r = GRB_INFEASIBLE g ->
   fst (Gurobi.solve g init m) = Raise (NoSolutionsError (VStr status))) /\
  (r_status r <> GRB_INFEASIBLE g ->
   fst (Gurobi.solve g init m) = Ret (PyStr.lower status, r_objVal r)).
Proof.
  rewrite Gurobi_solve_report. intros Hr Hs. injection Hr as Hr.
  rewrite Gurobi_solve_unfold. cbv zeta. rewrite Hr, Hs.
  split; intros H.
  - apply Z.eqb_eq in H. now rewrite H.
  - apply Z.eqb_neq in H. now rewrite H.
Qed.

Lemma SCIP_solve_cases p init m r :
  m_report (snd (SCIP.solve p init m)) = Some r ->
  (r_getStatus r = "infeasible" ->
   fst (SCIP.solve p init m) = Raise (NoSolutionsError (VStr "infeasible"))) /\
  (r_getStatus r <> "infeasible" ->
   fst (SCIP.solve p init m) = Ret (PyStr.lower (r_getStatus r), r_objVal r)).
Proof.
  rewrite SCIP_solve_report. intros Hr. injection Hr as Hr.
  unfold SCIP.solve. cbv zeta. rewrite Hr.
  split; intros H.
  - rewrite H. reflexivity.
  - apply String.eqb_neq in H. now rewrite H.
Qed.

Lemma CBC_solve_cases o init m r :
  m_report (snd (CBC.solve o init m)) = Some r ->
  (r_status r = INFEASIBLE o \/ r_VerifySolution r SOLVER_PRECISON true = false ->
   fst (CBC.solve o init m) = Raise (NoSolutionsError (VInt (r_status r)))) /\
  (r_status r <> INFEASIBLE o -> r_VerifySolution r SOLVER_PRECISON true = true ->
   fst (CBC.solve o init m)
   = Ret (PyStr.lower (CBC.STATUS o (r_status r)), r_objVal r)).
Proof.
  rewrite CBC_solve_report. intros Hr. injection Hr as Hr.
  unfold CBC.solve. cbv zeta. rewrite Hr.
  split.
  - intros [H|H].
    + apply Z.eqb_eq in H. now rewrite H.
    + destruct (_ =? _)%Z; [reflexivity|]. now rewrite H.
  - intros H1 H2. apply Z.eqb_neq in H1. now rewrite H1, H2.
Qed.

Lemma Gurobi_solve_unlisted g init m r :
  m_report (snd (Gurobi.solve g init m)) = Some r ->
  dict_get Z.eqb (r_status r) (Gurobi.GUROBI_STATUS g) = None ->
  fst (Gurobi.solve g init m) = Raise KeyError.
Proof.
  rewrite Gurobi_solve_report. intros Hr Hs. injection Hr as Hr.
  rewrite Gurobi_solve_unfold. cbv zeta. now rewrite Hr, Hs.
Qed.

End Solve.

(** C4, as stated, fails on the CBC adapter: the engine reports OPTIMAL, not
    INFEASIBLE, and [solve] still raises [NoSolutionsError]. *)
Lemma CBC_solve_raises_on_optimal :
  ~ (forall (o : ORTools) (init : option (Model -> Model)) (m : Model) (r : Report),
        m_report (snd (CBC.solve o init m)) = Some r ->
        ((exists a, fst (CBC.solve o init m) = Raise (NoSolutionsError a))
         <-> r_status r = INFEASIBLE o)).
Proof.
  intros H.
  specialize (H Scenario.unverified_ortools None (new_model "m") _ eq_refl).
  destruct H as [H _].
  assert (E : exists a, fst (CBC.solve Scenario.unverified_ortools None (new_model "m"))
                        = Raise (NoSolutionsError a))
    by (exists (VInt 0); reflexivity).
  apply H in E. discriminate E.
Qed.

(** C4 (amended). On the Gurobi adapter, when the status value the engine
    reports is a key of [GUROBI_STATUS], [solve] raises [NoSolutionsError]
    when that value is [GRB.INFEASIBLE] and returns the pair of the
    lower-cased status name and the objective for every other such value;
    when the value is no key of [GUROBI_STATUS], [solve] raises [KeyError].
    On the SCIP adapter [solve] raises [NoSolutionsError] when the engine's
    status is [infeasible] and returns the pair for every other status.  On
    the CBC adapter [solve] raises [NoSolutionsError] when the engine reports
    INFEASIBLE or when the solution fails [VerifySolution], and returns the
    pair otherwise. *)
Theorem solve_raises_or_returns :
  (forall g init m r,
      m_report (snd (Gurobi.solve g init m)) = Some r ->
      (forall status,
          dict_get Z.eqb (r_status r) (Gurobi.GUROBI_STATUS g) = Some status ->
          (r_status r = GRB_INFEASIBLE g ->
           fst (Gurobi.solve g init m) = Raise (NoSolutionsError (VStr status))) /\
          (r_status r <> GRB_INFEASIBLE g ->
           fst (Gurobi.solve g init m) = Ret (PyStr.lower status, r_objVal r)))
      /\ (dict_get Z.eqb (r_status r) (Gurobi.GUROBI_STATUS g) = None ->
          fst (Gurobi.solve g init m) = Raise KeyError)) /\
  (forall p init m r,
      m_report (snd (SCIP.solve p init m)) = Some r ->
      (r_getStatus r = "infeasible" ->
       fst (SCIP.solve p init m) = Raise (NoSolutionsError (VStr "infeasible"))) /\
      (r_getStatus r <> "infeasible" ->
       fst (SCIP.solve p init m) = Ret (PyStr.lower (r_getStatus r), r_objVal r))) /\
  (forall o init m r,
      m_report (snd (CBC.solve o init m)) = Some r ->
      (r_status r = INFEASIBLE o \/ r_VerifySolution r SOLVER_PRECISON true = false ->
       fst (CBC.solve o init m) = Raise (NoSolutionsError (VInt (r_status r)))) /\
      (r_status r <> INFEASIBLE o -> r_VerifySolution r SOLVER_PRECISON true = true ->
       fst (CBC.solve o init m)
       = Ret (PyStr.lower (CBC.STATUS o (r_status r)), r_objVal r))).
Proof.
  split; [|split].
  - intros g init m r Hr. split.
    + intros status. now apply Gurobi_solve_cases.
    + now apply Gurobi_solve_unlisted.
  - apply SCIP_solve_cases.
  - apply CBC_solve_cases.
Qed.

Lemma solve_raises_or_returns_witness :
  fst (Gurobi.solve Exhaustive.gurobipy None Scenario.infeasible)
  = Raise (NoSolutionsError (VStr "INFEASIBLE"))
  /\ fst (Gurobi.solve Exhaustive.gurobipy None Scenario.two_binaries)
     = Ret ("optimal", 1)
  /\ fst (Gurobi.solve Scenario.unlisted None Scenario.two_binaries)
     = Raise KeyError.
Proof.
  split; [|split].
  - apply (proj1 (proj1 (proj1 solve_raises_or_returns Exhaustive.gurobipy None
                           Scenario.infeasible _ eq_refl)
                        "INFEASIBLE" eq_refl)).
    reflexivity.
  - apply (proj2 (proj1 (proj1 solve_raises_or_returns Exhaustive.gurobipy None
                           Scenario.two_binaries _ eq_refl)
                        "OPTIMAL" eq_refl)).
    discriminate.
  - apply (proj2 (proj1 solve_raises_or_returns Scenario.unlisted None
                    Scenario.two_binaries _ eq_refl)).
    reflexivity.
Defined.

(** ** The gap test of [solutions] *)

Section GapTest.

Lemma SOLVER_PRECISON_pos : 0 < SOLVER_PRECISON.
Proof. reflexivity. Qed.

Lemma Qgt_bool_true a b : Qgt_bool a b = true <-> b < a.
Proof.
  unfold Qgt_bool. rewrite negb_true_iff.
  split; intros H.
  - apply Qnot_le_lt. intros L. apply Qle_bool_iff in L. congruence.
  - destruct (Qle_bool a b) eqn:E; [|reflexivity].
    apply Qle_bool_iff in E. exfalso. exact (Qlt_not_le _ _ H E).
Qed.

Lemma Qgt_bool_false a b : Qgt_bool a b = false <-> a <= b.
Proof.
  unfold Qgt_bool. rewrite negb_false_iff. apply Qle_bool_iff.
Qed.

Lemma Qge_bool_true a b : Qge_bool a b = true <-> b <= a.
Proof. unfold Qge_bool. apply Qle_bool_iff. Qed.

Lemma beyond_false obj ub : beyond obj ub = false <-> obj < ub + SOLVER_PRECISON.
Proof.
  unfold beyond. rewrite andb_false_iff. split.
  - intros [H|H].
    + destruct (Qlt_le_dec (Qabs (obj - ub)) SOLVER_PRECISON) as [L|L].
      * apply Qle_lt_trans with (y := ub + Qabs (obj - ub)).
        -- setoid_replace obj with (ub + (obj - ub)) at 1 by ring.
           apply Qplus_le_r. apply Qle_Qabs.
        -- apply Qplus_lt_r. exact L.
      * apply Qge_bool_true in L. congruence.
    + apply Qgt_bool_false in H.
      apply Qle_lt_trans with (y := ub + 0).
      * now rewrite Qplus_0_r.
      * apply Qplus_lt_r. exact SOLVER_PRECISON_pos.
  - intros H.
    destruct (Qlt_le_dec ub obj) as [L|L].
    + left. destruct (Qge_bool _ _) eqn:E; [|reflexivity].
      apply Qge_bool_true in E. exfalso.
      rewrite Qabs_pos in E.
      * apply (Qlt_not_le _ _ H).
        setoid_replace obj with (ub + (obj - ub)) by ring.
        now apply Qplus_le_r.
      * apply (Qplus_le_l _ _ ub). ring_simplify. now apply Qlt_le_weak.
    + right. now apply Qgt_bool_false.
Qed.

Lemma beyond_true obj ub : beyond obj ub = true <-> ub + SOLVER_PRECISON <= obj.
Proof.
  split; intros H.
  - apply Qnot_lt_le. intros L. apply beyond_false in L. congruence.
  - destruct (beyond obj ub) eqn:E; [reflexivity|].
    apply beyond_false in E. exfalso. exact (Qlt_not_le _ _ E H).
Qed.

End GapTest.

(** ** The enumerator [solutions] *)

Section Enumerator.
Variable self : Adapter.

(** One frame of the generator. *)
Lemma solutions_step fuel gap best_obj limit iteration init m :
  Gurobi.solutions self (S fuel) gap best_obj limit iteration init m =
  match Self.solve self init m with
  | (Raise (NoSolutionsError _), m1) => ([], StopIteration, m1)
  | (Raise e, m1) => ([], Raised e, m1)
  | (Ret (status, obj), m1) =>
      let best := match best_obj with None => obj | Some b => b end in
      if negb (String.eqb status "optimal") then ([], StopIteration, m1)
      else if beyond obj ((1 + gap) * best) then ([], StopIteration, m1)
      else if not_limit limit || below_limit iteration limit then
        let t := Gurobi.solutions self fuel gap (Some best) limit
                   (iteration + 1) init (cut self m1) in
        (element self status obj m1 :: emitted t, ending t, final t)
      else ([element self status obj m1], StopIteration, m1)
  end.
Proof.
  cbn [Gurobi.solutions].
  destruct (Self.solve self init m) as [[[status obj]|e] m1]; [|reflexivity].
  cbv zeta.
  destruct (negb _); [reflexivity|].
  destruct (beyond _ _); [reflexivity|].
  destruct (_ || _); [|reflexivity].
  unfold cut, emitted, ending, final, element.
  destruct (Gurobi.solutions _ _ _ _ _ _ _ _) as [[rest e] mf]. reflexivity.
Qed.

(** Every element emitted under a known best objective is within the gap. *)
Lemma solutions_within fuel gap best limit iteration init m :
  Forall (fun s => sol_obj s <= (1 + gap) * best + SOLVER_PRECISON)
         (emitted (Gurobi.solutions self fuel gap (Some best) limit iteration init m)).
Proof.
  revert iteration m.
  induction fuel as [|fuel IH]; intros iteration m; [constructor|].
  rewrite solutions_step.
  destruct (Self.solve self init m) as [[[status obj]|e] m1].
  - cbv zeta.
    destruct (negb _); [constructor|].
    destruct (beyond _ _) eqn:B; [constructor|].
    apply beyond_false in B. apply Qlt_le_weak in B.
    destruct (_ || _); cbn [emitted fst].
    + constructor; [exact B | apply IH].
    + constructor; [exact B | constructor].
  - destruct e; constructor.
Qed.

(** A solve beyond the bound ends the sequence with nothing emitted. *)
Lemma solutions_beyond fuel gap best_obj limit iteration init m status obj m1 :
  Self.solve self init m = (Ret (status, obj), m1) ->
  (1 + gap) * match best_obj with None => obj | Some b => b end
    + SOLVER_PRECISON <= obj ->
  Gurobi.solutions self (S fuel) gap best_obj limit iteration init m
  = ([], StopIteration, m1).
Proof.
  intros Hs Hb. rewrite solutions_step, Hs. cbv zeta.
  destruct (negb _); [reflexivity|].
  apply beyond_true in Hb. now rewrite Hb.
Qed.

(** Under a limit [n <> 0] at most [max 1 (n - iteration)] elements come out. *)
Lemma solutions_length fuel gap best_obj n iteration init m :
  n <> 0%Z ->
  (Z.of_nat (List.length
     (emitted (Gurobi.solutions self fuel gap best_obj (Some n) iteration init m)))
   <= Z.max 1 (n - iteration))%Z.
Proof.
  intros Hn. revert best_obj iteration m.
  induction fuel as [|fuel IH]; intros best_obj iteration m; [cbn; lia|].
  rewrite solutions_step.
  destruct (Self.solve self init m) as [[[status obj]|e] m1].
  - cbv zeta.
    destruct (negb _); [cbn; lia|].
    destruct (beyond _ _); [cbn; lia|].
    cbn [not_limit below_limit].
    apply Z.eqb_neq in Hn. rewrite Hn. cbn [orb].
    destruct (iteration + 1 <? n)%Z eqn:L; cbn [emitted fst List.length].
    + apply Z.ltb_lt in L.
      specialize (IH (Some match best_obj with None => obj | Some b => b end)
                     (iteration + 1)%Z (cut self m1)).
      unfold emitted in *. lia.
    + lia.
  - destruct e; cbn; lia.
Qed.

(** ... and the generator ends within that many frames. *)
Lemma solutions_ends fuel gap best_obj n iteration init m :
  n <> 0%Z ->
  (Z.max 1 (n - iteration) <= Z.of_nat fuel)%Z ->
  ending (Gurobi.solutions self fuel gap best_obj (Some n) iteration init m)
  <> OutOfFuel.
Proof.
  intros Hn. revert best_obj iteration m.
  induction fuel as [|fuel IH]; intros best_obj iteration m Hf; [lia|].
  rewrite solutions_step.
  destruct (Self.solve self init m) as [[[status obj]|e] m1].
  - cbv zeta.
    destruct (negb _); [discriminate|].
    destruct (beyond _ _); [discriminate|].
    cbn [not_limit below_limit].
    pose proof Hn as Hn'. apply Z.eqb_neq in Hn'. rewrite Hn'. cbn [orb].
    destruct (iteration + 1 <? n)%Z eqn:L; cbn [ending fst snd]; [|discriminate].
    apply Z.ltb_lt in L. apply IH. lia.
  - destruct e; discriminate.
Qed.

End Enumerator.

(** ** Dictionaries and sorted tuples *)

Section DictFacts.
Context {K V : Type} (eqb : K -> K -> bool).
Hypothesis eqb_spec : forall a b, eqb a b = true <-> a = b.

Lemma dict_set_keys_In k v (d : list (K * V)) k0 :
  In k0 (keys (dict_set eqb k v d)) <-> k0 = k \/ In k0 (keys d).
Proof.
  induction d as [|[k' v'] d IH]; cbn.
  - intuition congruence.
  - destruct (eqb k' k) eqn:E; cbn.
    + apply eqb_spec in E. subst. intuition congruence.
    + unfold keys in IH. rewrite IH. intuition congruence.
Qed.

Lemma fold_dict_set_keys_In items (d : list (K * V)) k0 :
  In k0 (keys (fold_left (fun d kv => dict_set eqb (fst kv) (snd kv) d) items d))
  <-> In k0 (keys d) \/ In k0 (map fst items).
Proof.
  revert d. induction items as [|[k v] items IH]; intros d;
    cbn [fold_left map fst snd].
  - cbn. tauto.
  - rewrite IH, dict_set_keys_In. cbn. intuition congruence.
Qed.

Lemma dict_of_keys_In (items : list (K * V)) k0 :
  In k0 (keys (dict_of eqb items)) <-> In k0 (map fst items).
Proof.
  unfold dict_of. rewrite fold_dict_set_keys_In. cbn. tauto.
Qed.

Lemma dict_set_fresh k v (d : list (K * V)) :
  ~ In k (keys d) -> dict_set eqb k v d = (d ++ [(k, v)])%list.
Proof.
  induction d as [|[k' v'] d IH]; cbn; intros H; [reflexivity|].
  destruct (eqb k' k) eqn:E.
  - apply eqb_spec in E. tauto.
  - rewrite IH by tauto. reflexivity.
Qed.

Lemma fold_dict_set_fresh items (d : list (K * V)) :
  NoDup (keys d ++ map fst items) ->
  fold_left (fun d kv => dict_set eqb (fst kv) (snd kv) d) items d
  = (d ++ items)%list.
Proof.
  revert d. induction items as [|[k v] items IH]; intros d H;
    cbn [fold_left map fst snd] in *.
  - now rewrite app_nil_r.
  - rewrite dict_set_fresh.
    + rewrite IH.
      * now rewrite <- app_assoc.
      * unfold keys in *. rewrite map_app, <- app_assoc. exact H.
    + apply NoDup_remove_2 in H. intros I. apply H.
      apply in_or_app. now left.
Qed.

(** Without repeated keys the comprehension keeps the items as they are. *)
Lemma dict_of_NoDup (items : list (K * V)) :
  NoDup (map fst items) -> dict_of eqb items = items.
Proof.
  intros H. unfold dict_of. now rewrite fold_dict_set_fresh.
Qed.

End DictFacts.

Section SortedTuple.

Lemma insert_sorted_perm x l : Permutation (x :: l) (insert_sorted x l).
Proof.
  induction l as [|y l IH]; cbn; [reflexivity|].
  destruct (String.leb x y); [reflexivity|].
  rewrite perm_swap. now constructor.
Qed.

Lemma sorted_tuple_perm l : Permutation l (sorted_tuple l).
Proof.
  induction l as [|x l IH]; cbn; [constructor|].
  rewrite <- insert_sorted_perm. now constructor.
Qed.

Lemma insert_sorted_HdRel a x l :
  str_le a x -> HdRel str_le a l -> HdRel str_le a (insert_sorted x l).
Proof.
  intros Hax H. destruct l as [|y l]; cbn.
  - now constructor.
  - destruct (String.leb x y); constructor; [exact Hax|].
    now inversion H.
Qed.

Lemma insert_sorted_Sorted x l :
  Sorted str_le l -> Sorted str_le (insert_sorted x l).
Proof.
  induction l as [|y l IH]; cbn; intros H.
  - repeat constructor.
  - destruct (String.leb x y) eqn:E.
    + constructor; [exact H|]. now constructor.
    + inversion H as [|? ? Hs Hd]; subst.
      constructor; [now apply IH|].
      apply insert_sorted_HdRel; [|exact Hd].
      destruct (String.leb_total x y) as [T|T]; [congruence|exact T].
Qed.

Lemma sorted_tuple_Sorted l : Sorted str_le (sorted_tuple l).
Proof.
  induction l as [|x l IH]; cbn; [constructor|].
  now apply insert_sorted_Sorted.
Qed.

Lemma sorted_tuple_In l x : In x (sorted_tuple (py_set l)) <-> In x l.
Proof.
  unfold py_set. rewrite <- (nodup_In string_dec l x). split.
  - apply Permutation_in. symmetry. apply sorted_tuple_perm.
  - apply Permutation_in. apply sorted_tuple_perm.
Qed.

Lemma sorted_tuple_NoDup l : NoDup (sorted_tuple (py_set l)).
Proof.
  apply (Permutation_NoDup (sorted_tuple_perm _)). apply NoDup_nodup.
Qed.

End SortedTuple.

(** ** The enumerator: gap bound, limit, termination on infeasibility *)

(** C1. Every element the enumerator emits has an objective [o] with
    [o <= (1 + gap) * best + SOLVER_PRECISON], where [best] is the best
    objective the caller supplies, or the objective of the first solve when
    none is supplied; and a solve whose objective exceeds that bound ends the
    sequence with nothing emitted. *)
Theorem solutions_gap_bound (self : Adapter) fuel gap best_obj limit iteration
    init m :
  let best := match best_obj with
              | Some b => b
              | None => match fst (Self.solve self init m) with
                        | Ret (_, obj) => obj
                        | Raise _ => 0
                        end
              end in
  Forall (fun s => sol_obj s <= (1 + gap) * best + SOLVER_PRECISON)
         (emitted (Gurobi.solutions self fuel gap best_obj limit iteration init m))
  /\ (forall status obj m1,
         Self.solve self init m = (Ret (status, obj), m1) ->
         (1 + gap) * best + SOLVER_PRECISON < obj ->
         Gurobi.solutions self (S fuel) gap best_obj limit iteration init m
         = ([], StopIteration, m1)).
Proof.
  cbv zeta. split.
  - destruct best_obj as [b|]; [apply solutions_within|].
    destruct fuel as [|fuel]; [constructor|].
    rewrite solutions_step.
    destruct (Self.solve self init m) as [[[status obj]|e] m1]; cbn [fst].
    + cbv zeta.
      destruct (negb _); [constructor|].
      destruct (beyond _ _) eqn:B; [constructor|].
      apply beyond_false in B. apply Qlt_le_weak in B.
      destruct (_ || _); cbn [emitted fst].
      * constructor; [exact B | apply solutions_within].
      * constructor; [exact B | constructor].
    + destruct e; constructor.
  - intros status obj m1 Hs Hb.
    apply solutions_beyond with (status := status) (obj := obj); [exact Hs|].
    apply Qlt_le_weak.
    destruct best_obj as [b|]; [exact Hb|].
    rewrite Hs in Hb. exact Hb.
Qed.

(** C1, at a concrete input: with a supplied best objective of 0 and no gap,
    the first solve of [two_binaries] has objective 1 and ends the sequence. *)
Lemma solutions_gap_bound_witness :
  emitted (Gurobi.solutions Scenario.G 1 0 (Some 0) None 0 None Scenario.two_binaries)
  = [].
Proof.
  rewrite (proj2 (solutions_gap_bound Scenario.G 0 0 (Some 0) None 0 None
                    Scenario.two_binaries)
                 "optimal" 1 _ eq_refl).
  - reflexivity.
  - reflexivity.
Defined.

(** C5, as stated, fails for the limit 0, which the code reads as "no limit":
    the enumerator emits two elements on [two_binaries]. *)
Lemma solutions_limit_zero_unbounded :
  ~ (forall (self : Adapter) (n : Z) fuel gap best_obj init m,
        (Z.of_nat (List.length
           (emitted (Gurobi.solutions self fuel gap best_obj (Some n) 0 init m)))
         <= n)%Z).
Proof.
  intros H.
  specialize (H Scenario.G 0%Z 5%nat 0 None None Scenario.two_binaries).
  vm_compute in H. apply H. reflexivity.
Qed.

(** C5 (amended). For every iteration limit [n >= 1], an enumeration started
    at iteration 0 emits at most [n] elements and has ended once [n] frames
    have run. *)
Theorem solutions_limit (self : Adapter) (n : Z) fuel gap best_obj init m :
  (1 <= n)%Z ->
  (Z.of_nat (List.length
     (emitted (Gurobi.solutions self fuel gap best_obj (Some n) 0 init m)))
   <= n)%Z
  /\ ((n <= Z.of_nat fuel)%Z ->
      ending (Gurobi.solutions self fuel gap best_obj (Some n) 0 init m)
      <> OutOfFuel).
Proof.
  intros Hn. split.
  - pose proof (solutions_length self fuel gap best_obj n 0 init m) as H.
    lia.
  - intros Hf. apply solutions_ends; lia.
Qed.

Lemma solutions_limit_witness :
  (Z.of_nat (List.length
     (emitted (Gurobi.solutions Scenario.G 5 0 None (Some 1%Z) 0 None
                 Scenario.two_binaries)))
   <= 1)%Z.
Proof.
  apply (solutions_limit Scenario.G 1 5 0 None None Scenario.two_binaries).
  lia.
Defined.

Section Selected.
Variable self : Adapter.

(** The names of the dictionary [vv] are those of the binary variables the
    solve set. *)
Lemma selected_keys_In m1 n :
  In n (keys (Gurobi.selected self m1)) <->
  exists v, In v (Self.variables self m1)
            /\ Self.is_binary self m1 v = true
            /\ eq_one (Self.getValue self m1 v) = true
            /\ Self.varName self v = n.
Proof.
  unfold Gurobi.selected.
  rewrite (dict_of_keys_In String.eqb String.eqb_eq), map_map.
  cbn [fst]. rewrite in_map_iff. split.
  - intros (v & Hn & Hv). apply filter_In in Hv. destruct Hv as [Hv Hb].
    apply andb_true_iff in Hb. exists v. tauto.
  - intros (v & Hv & Hb & He & Hn). exists v. split; [exact Hn|].
    apply filter_In. split; [exact Hv|]. now rewrite Hb, He.
Qed.

Lemma element_names_In status obj m1 n :
  In n (sol_names (element self status obj m1)) <->
  exists v, In v (Self.variables self m1)
            /\ Self.is_binary self m1 v = true
            /\ eq_one (Self.getValue self m1 v) = true
            /\ Self.varName self v = n.
Proof.
  unfold element, sol_names. cbn [snd].
  rewrite sorted_tuple_In. apply selected_keys_In.
Qed.

Lemma solutions_no_solution fuel gap best_obj limit iteration init m a m1 :
  Self.solve self init m = (Raise (NoSolutionsError a), m1) ->
  Gurobi.solutions self (S fuel) gap best_obj limit iteration init m
  = ([], StopIteration, m1).
Proof. intros H. now rewrite solutions_step, H. Qed.

Lemma solutions_emits fuel gap best_obj limit iteration init m obj m1 :
  Self.solve self init m = (Ret ("optimal", obj), m1) ->
  obj < (1 + gap) * match best_obj with None => obj | Some b => b end
        + SOLVER_PRECISON ->
  exists rest,
    emitted (Gurobi.solutions self (S fuel) gap best_obj limit iteration init m)
    = element self "optimal" obj m1 :: rest.
Proof.
  intros Hs Hb. rewrite solutions_step, Hs. cbv zeta.
  cbn [String.eqb Ascii.eqb Bool.eqb negb].
  apply beyond_false in Hb. rewrite Hb.
  destruct (_ || _); cbn [emitted fst]; eauto.
Qed.

End Selected.

(** C3, as stated, fails for a solve that is neither infeasible nor optimal:
    the engine stops at its time limit with objective 1, which is within the
    bound, and nothing is emitted. *)
Lemma solutions_skips_non_optimal :
  ~ (forall (self : Adapter) fuel gap best_obj limit iteration init m status obj m1,
        Self.solve self init m = (Ret (status, obj), m1) ->
        obj <= (1 + gap) * match best_obj with None => obj | Some b => b end
               + SOLVER_PRECISON ->
        emitted (Gurobi.solutions self (S fuel) gap best_obj limit iteration init m)
        <> []).
Proof.
  intros H.
  apply (H (Gurobi.adapter Scenario.timed_out) 3%nat 0 None None 0%Z None
           (new_model "m") "time_limit" 1 _ eq_refl).
  - discriminate.
  - reflexivity.
Qed.

(** C3 (amended). For an infeasible model the enumerator's sequence is empty
    and ends without an error: so it is on the Gurobi adapter when the engine
    reports [GRB.INFEASIBLE] and that value is a key of [GUROBI_STATUS], on
    the SCIP adapter when the engine's status is [infeasible], on the CBC
    adapter when the engine reports INFEASIBLE, and on any adapter whose
    [solve] raises [NoSolutionsError].  Every solve that returns the status
    [optimal] with an objective below [(1 + gap) * best + SOLVER_PRECISON]
    puts exactly one element in the sequence, before those of the later
    solves: the status, the objective, and the names of the binary variables
    that are set, sorted and without repetition; later solves follow only
    when the limit allows, on the model with the exclusion constraint added.
    A solve that returns any status other than [optimal] ends the sequence
    with nothing emitted and no error. *)
Theorem solutions_infeasible_or_emits :
  (forall g fuel gap best_obj limit iteration init m r status,
      m_report (snd (Gurobi.solve g init m)) = Some r ->
      dict_get Z.eqb (r_status r) (Gurobi.GUROBI_STATUS g) = Some status ->
      r_status r = GRB_INFEASIBLE g ->
      let t := Gurobi.solutions (Gurobi.adapter g) (S fuel) gap best_obj limit
                 iteration init m in
      emitted t = [] /\ ending t = StopIteration)
  /\ (forall p fuel gap best_obj limit iteration init m r,
         m_report (snd (SCIP.solve p init m)) = Some r ->
         r_getStatus r = "infeasible" ->
         let t := Gurobi.solutions (SCIP.adapter p) (S fuel) gap best_obj limit
                    iteration init m in
         emitted t = [] /\ ending t = StopIteration)
  /\ (forall o SOLUTION_PRECISION fuel gap best_obj limit iteration init m r,
         m_report (snd (CBC.solve o init m)) = Some r ->
         r_status r = INFEASIBLE o ->
         let t := Gurobi.solutions (CBC.adapter o SOLUTION_PRECISION) (S fuel) gap
                    best_obj limit iteration init m in
         emitted t = [] /\ ending t = StopIteration)
  /\ (forall (self : Adapter) fuel gap best_obj limit iteration init m a m1,
         Self.solve self init m = (Raise (NoSolutionsError a), m1) ->
         Gurobi.solutions self (S fuel) gap best_obj limit iteration init m
         = ([], StopIteration, m1))
  /\ (forall (self : Adapter) fuel gap best_obj limit iteration init m obj m1,
         Self.solve self init m = (Ret ("optimal", obj), m1) ->
         obj < (1 + gap) * match best_obj with None => obj | Some b => b end
               + SOLVER_PRECISON ->
         exists names,
           emitted (Gurobi.solutions self (S fuel) gap best_obj limit iteration
                      init m)
           = ("optimal", obj, names)
             :: (if not_limit limit || below_limit iteration limit
                 then emitted
                        (Gurobi.solutions self fuel gap
                           (Some match best_obj with None => obj | Some b => b end)
                           limit (iteration + 1) init (cut self m1))
                 else [])
           /\ Sorted str_le names
           /\ NoDup names
           /\ (forall n, In n names <->
                 exists v, In v (Self.variables self m1)
                           /\ Self.is_binary self m1 v = true
                           /\ eq_one (Self.getValue self m1 v) = true
                           /\ Self.varName self v = n))
  /\ (forall (self : Adapter) fuel gap best_obj limit iteration init m status
             obj m1,
         Self.solve self init m = (Ret (status, obj), m1) ->
         status <> "optimal" ->
         Gurobi.solutions self (S fuel) gap best_obj limit iteration init m
         = ([], StopIteration, m1)).
Proof.
  split; [|split; [|split; [|split; [|split]]]].
  - intros g fuel gap best_obj limit iteration init m r status Hr Hs Hi.
    destruct (Gurobi_solve_cases g init m r status Hr Hs) as [Hraise _].
    specialize (Hraise Hi). cbv zeta.
    destruct (Gurobi.solve g init m) as [res m1] eqn:E. cbn [fst] in Hraise.
    subst res.
    rewrite (solutions_no_solution (Gurobi.adapter g) fuel gap best_obj limit
               iteration init m (VStr status) m1 E).
    split; reflexivity.
  - intros p fuel gap best_obj limit iteration init m r Hr Hi.
    destruct (SCIP_solve_cases p init m r Hr) as [Hraise _].
    specialize (Hraise Hi). cbv zeta.
    destruct (SCIP.solve p init m) as [res m1] eqn:E. cbn [fst] in Hraise.
    subst res.
    rewrite (solutions_no_solution (SCIP.adapter p) fuel gap best_obj limit
               iteration init m (VStr "infeasible") m1 E).
    split; reflexivity.
  - intros o sp fuel gap best_obj limit iteration init m r Hr Hi.
    destruct (CBC_solve_cases o init m r Hr) as [Hraise _].
    specialize (Hraise (or_introl Hi)). cbv zeta.
    destruct (CBC.solve o init m) as [res m1] eqn:E. cbn [fst] in Hraise.
    subst res.
    rewrite (solutions_no_solution (CBC.adapter o sp) fuel gap best_obj limit
               iteration init m (VInt (r_status r)) m1 E).
    split; reflexivity.
  - intros. eapply solutions_no_solution; eassumption.
  - intros self fuel gap best_obj limit iteration init m obj m1 Hs Hb.
    exists (sol_names (element self "optimal" obj m1)).
    split; [|split; [apply sorted_tuple_Sorted|
             split; [apply sorted_tuple_NoDup|intros n; apply element_names_In]]].
    rewrite solutions_step, Hs. cbv zeta.
    cbn [String.eqb Ascii.eqb Bool.eqb negb].
    apply beyond_false in Hb. rewrite Hb.
    destruct (_ || _); reflexivity.
  - intros self fuel gap best_obj limit iteration init m status obj m1 Hs Hn.
    rewrite solutions_step, Hs. cbv zeta.
    apply String.eqb_neq in Hn. now rewrite Hn.
Qed.

Lemma solutions_infeasible_or_emits_witness :
  emitted (Gurobi.solutions Scenario.G 3 0 None None 0 None Scenario.infeasible) = []
  /\ (exists names,
        hd_error (emitted (Gurobi.solutions Scenario.G 3 0 None None 0 None
                             Scenario.two_binaries))
        = Some ("optimal", 1, names))
  /\ Gurobi.solutions (Gurobi.adapter Scenario.timed_out) 3 0 None None 0 None
       (new_model "m")
     = ([], StopIteration,
        snd (Gurobi.solve Scenario.timed_out None (new_model "m"))).
Proof.
  split; [|split].
  - apply (proj1 solutions_infeasible_or_emits Exhaustive.gurobipy 2%nat 0 None
             None 0%Z None Scenario.infeasible _ "INFEASIBLE" eq_refl eq_refl
             eq_refl).
  - destruct (proj1 (proj2 (proj2 (proj2 (proj2 solutions_infeasible_or_emits))))
                Scenario.G 2%nat 0 None None 0%Z None Scenario.two_binaries 1 _
                eq_refl eq_refl)
      as (names & H & _).
    exists names. rewrite H. reflexivity.
  - apply (proj2 (proj2 (proj2 (proj2 (proj2 solutions_infeasible_or_emits))))
             (Gurobi.adapter Scenario.timed_out) 2%nat 0 None None 0%Z None
             (new_model "m") "time_limit" 1 _ eq_refl).
    discriminate.
Defined.

(** The scenario of the specification: two binary variables, minimize
    [x1 + x2] under [x1 + x2 >= 1], no gap, no limit.  Each singleton comes
    out once and the third solve is infeasible. *)
Example solutions_two_binaries :
  Gurobi.solutions Scenario.G 6 0 None None 0 None Scenario.two_binaries
  = ([("optimal", 1, ["x2"]); ("optimal", 1, ["x1"])], StopIteration,
     final (Gurobi.solutions Scenario.G 6 0 None None 0 None
              Scenario.two_binaries)).
Proof. vm_compute. reflexivity. Qed.

(** The same enumeration cut by the recursion budget. *)
Example solutions_two_binaries_cut :
  ending (Gurobi.solutions Scenario.G 2 0 None None 0 None Scenario.two_binaries)
  = OutOfFuel.
Proof. vm_compute. reflexivity. Qed.

(** ** Linear expressions over 0/1 values *)

Section Sums.
Variable rho : nat -> Q.

Lemma eval_fold_EAdd es acc :
  eval rho (fold_left EAdd es acc)
  == eval rho acc + fold_right (fun e s => eval rho e + s) 0 es.
Proof.
  revert acc. induction es as [|e es IH]; intros acc; cbn.
  - lra.
  - rewrite IH. cbn. lra.
Qed.

Lemma eval_sum_vars vs : eval rho (sum_expr (map EVar vs)) == sum_of rho vs.
Proof.
  unfold sum_expr. rewrite eval_fold_EAdd. cbn [eval].
  induction vs as [|v vs IH]; cbn; [lra|].
  rewrite Qplus_0_l in IH. rewrite <- IH. lra.
Qed.

Lemma inject_length_cons {A} (x : A) (l : list A) :
  inject_Z (Z.of_nat (List.length (x :: l)))
  == inject_Z (Z.of_nat (List.length l)) + 1.
Proof.
  cbn [List.length]. rewrite Nat2Z.inj_succ. unfold Z.succ.
  rewrite inject_Z_plus. reflexivity.
Qed.

Lemma inject_Z_pred z : inject_Z (z - 1) == inject_Z z - 1.
Proof. unfold Z.sub. rewrite inject_Z_plus. reflexivity. Qed.

Lemma len_minus_1_eq {A} (l : list A) :
  Gurobi.len_minus_1 l == inject_Z (Z.of_nat (List.length l)) - 1.
Proof. apply inject_Z_pred. Qed.

Lemma sum_of_ones vs :
  (forall v, In v vs -> rho (vid v) == 1) ->
  sum_of rho vs == inject_Z (Z.of_nat (List.length vs)).
Proof.
  induction vs as [|v vs IH]; intros H.
  - reflexivity.
  - rewrite inject_length_cons. cbn [sum_of fold_right].
    fold (sum_of rho vs).
    assert (rho (vid v) == 1) by (apply H; cbn; auto).
    assert (sum_of rho vs == inject_Z (Z.of_nat (List.length vs)))
      by (apply IH; intros; apply H; cbn; auto).
    lra.
Qed.

Lemma sum_of_le vs :
  (forall v, In v vs -> rho (vid v) <= 1) ->
  sum_of rho vs <= inject_Z (Z.of_nat (List.length vs)).
Proof.
  induction vs as [|v vs IH]; intros H.
  - apply Qle_refl.
  - rewrite inject_length_cons. cbn [sum_of fold_right].
    fold (sum_of rho vs).
    assert (rho (vid v) <= 1) by (apply H; cbn; auto).
    assert (sum_of rho vs <= inject_Z (Z.of_nat (List.length vs)))
      by (apply IH; intros; apply H; cbn; auto).
    lra.
Qed.

Lemma sum_of_with_zero vs v0 :
  (forall v, In v vs -> rho (vid v) <= 1) ->
  In v0 vs -> rho (vid v0) == 0 ->
  sum_of rho vs <= inject_Z (Z.of_nat (List.length vs)) - 1.
Proof.
  induction vs as [|v vs IH]; intros H Hin H0; [destruct Hin|].
  rewrite inject_length_cons. cbn [sum_of fold_right]. fold (sum_of rho vs).
  destruct Hin as [->|Hin].
  - assert (sum_of rho vs <= inject_Z (Z.of_nat (List.length vs)))
      by (apply sum_of_le; intros; apply H; cbn; auto).
    lra.
  - assert (rho (vid v) <= 1) by (apply H; cbn; auto).
    assert (sum_of rho vs <= inject_Z (Z.of_nat (List.length vs)) - 1)
      by (apply IH; auto; intros; apply H; cbn; auto).
    lra.
Qed.

Lemma product_of_ones vs :
  (forall v, In v vs -> rho (vid v) == 1) -> product_of rho vs == 1.
Proof.
  induction vs as [|v vs IH]; intros H; [reflexivity|].
  cbn [product_of fold_right]. fold (product_of rho vs).
  assert (E1 : rho (vid v) == 1) by (apply H; cbn; auto).
  assert (E2 : product_of rho vs == 1)
    by (apply IH; intros; apply H; cbn; auto).
  rewrite E1, E2. lra.
Qed.

Lemma product_of_with_zero vs v0 :
  In v0 vs -> rho (vid v0) == 0 -> product_of rho vs == 0.
Proof.
  induction vs as [|v vs IH]; intros Hin H0; [destruct Hin|].
  cbn [product_of fold_right]. fold (product_of rho vs).
  destruct Hin as [->|Hin].
  - rewrite H0. lra.
  - assert (E : product_of rho vs == 0) by (apply IH; assumption).
    rewrite E. lra.
Qed.

(** Among 0/1 values either all are 1 or one is 0. *)
Lemma zero_one_cases vs :
  (forall v, In v vs -> zero_one rho v) ->
  (forall v, In v vs -> rho (vid v) == 1)
  \/ (exists v0, In v0 vs /\ rho (vid v0) == 0).
Proof.
  induction vs as [|v vs IH]; intros H.
  - left. intros v [].
  - destruct (H v (or_introl eq_refl)) as [Z0|O1].
    + right. exists v. cbn. auto.
    + destruct IH as [All|(v0 & Hin & H0)].
      * intros; apply H; cbn; auto.
      * left. intros w [<-|Hw]; auto.
      * right. exists v0. cbn. auto.
Qed.

Lemma zero_one_le_1 v : zero_one rho v -> rho (vid v) <= 1.
Proof. intros [H|H]; rewrite H; lra. Qed.

Lemma zero_one_ge_0 v : zero_one rho v -> 0 <= rho (vid v).
Proof. intros [H|H]; rewrite H; lra. Qed.

End Sums.

(** ** [prod]: the product of binaries *)

Section Prod.
Variable g : GurobiPy.

Lemma prod_loop_constrs res terms m :
  let m1 := fold_left
              (fun m v => Self.addConstr (Gurobi.adapter g)
                            (le_ (EVar res) (EVar v)) None m) terms m in
  m_constrs m1
  = (m_constrs m ++ map (fun v => (le_ (EVar res) (EVar v), None)) terms)%list
  /\ m_vars m1 = m_vars m.
Proof.
  cbv zeta. revert m. induction terms as [|v terms IH]; intros m; cbn.
  - now rewrite app_nil_r.
  - destruct (IH (Gurobi.addConstr (le_ (EVar res) (EVar v)) None m)) as [Hc Hv].
    cbn in Hc, Hv. rewrite Hc, Hv. cbn. now rewrite <- app_assoc.
Qed.

Lemma prod_constrs res terms m :
  m_constrs (snd (Gurobi.prod (Gurobi.adapter g) res terms m))
  = (m_constrs m ++ prod_constraints res terms)%list
  /\ m_vars (snd (Gurobi.prod (Gurobi.adapter g) res terms m)) = m_vars m.
Proof.
  unfold Gurobi.prod. cbn [snd].
  destruct (prod_loop_constrs res terms m) as [Hc Hv]. cbv zeta in Hc, Hv.
  cbn [Self.addConstr Self.quicksum Gurobi.adapter].
  unfold Gurobi.addConstr at 1, engine_addConstr at 1.
  cbn [m_constrs m_vars set_constrs option_map].
  unfold prod_constraints, Gurobi.quicksum, Gurobi.len_minus_1.
  cbn [Self.addConstr Gurobi.adapter] in Hc, Hv.
  split.
  - now rewrite Hc, <- app_assoc.
  - exact Hv.
Qed.

Lemma prod_holds_iff rho res terms :
  (forall v, In v (res :: terms) -> zero_one rho v) ->
  ((forall c, In c (prod_constraints res terms) -> holds rho (fst c))
   <-> rho (vid res) == product_of rho terms).
Proof.
  intros H01.
  assert (Hres : zero_one rho res) by (apply H01; cbn; auto).
  assert (Hterms : forall v, In v terms -> zero_one rho v)
    by (intros; apply H01; cbn; auto).
  assert (Hle : forall v, In v terms -> rho (vid v) <= 1)
    by (intros; apply zero_one_le_1; auto).
  pose proof (eval_sum_vars rho terms) as Es.
  split.
  - intros Hc.
    destruct (zero_one_cases rho terms Hterms) as [All|(v0 & Hin & H0)].
    + rewrite (product_of_ones rho terms All).
      assert (G : holds rho (ge_ (EVar res)
                   (ESub (sum_expr (map EVar terms))
                         (EConst (inject_Z (Z.of_nat (List.length terms) - 1))))))
        by (apply (Hc (_, None)); unfold prod_constraints;
            apply in_or_app; right; cbn; auto).
      unfold holds in G. cbn [c_sense c_lhs c_rhs ge_ eval] in G.
      rewrite Es, inject_Z_pred in G.
      pose proof (sum_of_ones rho terms All) as E.
      destruct Hres as [R|R]; [|exact R]. lra.
    + rewrite (product_of_with_zero rho terms v0 Hin H0).
      assert (L : holds rho (le_ (EVar res) (EVar v0)))
        by (apply (Hc (_, None)); unfold prod_constraints;
            apply in_or_app; left; apply in_map_iff;
            exists v0; split; [reflexivity | exact Hin]).
      unfold holds in L. cbn in L.
      destruct Hres as [R|R]; [exact R|]. lra.
  - intros Hp [c name] Hin. cbn [fst]. unfold prod_constraints in Hin.
    apply in_app_or in Hin. destruct Hin as [Hin|[Hin|[]]].
    + apply in_map_iff in Hin. destruct Hin as (v & E & Hv).
      injection E as <- _. unfold holds. cbn.
      destruct (zero_one_cases rho terms Hterms) as [All|(v0 & Hin0 & H0)].
      * rewrite (All v Hv). now apply zero_one_le_1.
      * rewrite Hp, (product_of_with_zero rho terms v0 Hin0 H0).
        apply zero_one_ge_0. auto.
    + injection Hin as <- _. unfold holds.
      cbn [c_sense c_lhs c_rhs ge_ eval]. rewrite Es, inject_Z_pred.
      destruct (zero_one_cases rho terms Hterms) as [All|(v0 & Hin0 & H0)].
      * rewrite Hp, (product_of_ones rho terms All).
        pose proof (sum_of_ones rho terms All). lra.
      * rewrite Hp, (product_of_with_zero rho terms v0 Hin0 H0).
        pose proof (sum_of_with_zero rho terms v0 Hle Hin0 H0). lra.
Qed.

End Prod.

(** C7. [prod] returns [res] unchanged, adds no variable, and adds exactly
    the constraints [res <= term] for every term and
    [res >= sum(terms) - (len(terms) - 1)]; under any 0/1 valuation of [res]
    and the terms these constraints hold exactly when [res] is the product
    (the logical AND) of the terms. *)
Theorem prod_enforces_and (g : GurobiPy) (res : Var) (terms : list Var) (m : Model) :
  fst (Gurobi.prod (Gurobi.adapter g) res terms m) = res
  /\ m_constrs (snd (Gurobi.prod (Gurobi.adapter g) res terms m))
     = (m_constrs m ++ prod_constraints res terms)%list
  /\ m_vars (snd (Gurobi.prod (Gurobi.adapter g) res terms m)) = m_vars m
  /\ (forall rho,
        (forall v, In v (res :: terms) -> zero_one rho v) ->
        ((forall c, In c (prod_constraints res terms) -> holds rho (fst c))
         <-> rho (vid res) == product_of rho terms)).
Proof.
  split; [reflexivity|].
  destruct (prod_constrs g res terms m) as [Hc Hv].
  split; [exact Hc|]. split; [exact Hv|].
  intros rho. apply prod_holds_iff.
Qed.

Lemma prod_enforces_and_witness :
  Forall (fun c => holds (fun _ => 1) (fst c))
         (prod_constraints (mkVar 2 "y" BINARY 0 (Fin 1))
            [mkVar 0 "x1" BINARY 0 (Fin 1); mkVar 1 "x2" BINARY 0 (Fin 1)]).
Proof.
  apply Forall_forall.
  apply (proj2 (proj2 (proj2 (proj2 (prod_enforces_and Exhaustive.gurobipy
           (mkVar 2 "y" BINARY 0 (Fin 1))
           [mkVar 0 "x1" BINARY 0 (Fin 1); mkVar 1 "x2" BINARY 0 (Fin 1)]
           (new_model "m")))) (fun _ => 1)
         (fun v _ => or_intror (Qeq_refl 1)))).
  reflexivity.
Defined.

(** ** [abssum]: the sum of absolute values *)

Section Abssum.
Variable g : GurobiPy.
Variable coeffs : option (list (string * Q)).

(** One round of the loop on the Gurobi adapter. *)
Lemma abssum_loop_cons i v vars vv m :
  let a := abs_var (List.length (m_vars m)) v in
  Gurobi.abssum_loop (Gurobi.adapter g) coeffs i (v :: vars) vv m
  = Gurobi.abssum_loop (Gurobi.adapter g) coeffs (S i) vars
      (vv ++ [EMul (coeff_of coeffs (v_name v)) (EVar a)])%list
      (engine_addConstr (ge_ (ESub (EVar a) (EVar v)) (EConst 0))
         (Some (escape_name ("CABSR_" ++ PyStr.of_nat i)))
         (engine_addConstr (ge_ (EAdd (EVar a) (EVar v)) (EConst 0))
            (Some (escape_name ("CABSL_" ++ PyStr.of_nat i)))
            (set_vars (m_vars m ++ [a]) m))).
Proof. reflexivity. Qed.

(** What the loop leaves: the terms, the variables and the constraints. *)
Lemma abssum_loop_builds vars : forall i vv m,
  let r := Gurobi.abssum_loop (Gurobi.adapter g) coeffs i vars vv m in
  let base := List.length (m_vars m) in
  fst r = (vv ++ abs_terms coeffs base vars)%list
  /\ m_vars (snd r) = (m_vars m ++ abs_vars base vars)%list
  /\ m_constrs (snd r) = (m_constrs m ++ abs_rows i base vars)%list.
Proof.
  induction vars as [|v vars IH]; intros i vv m; cbv zeta.
  - cbn. now rewrite !app_nil_r.
  - rewrite abssum_loop_cons. cbv zeta.
    match goal with
    | |- context [Gurobi.abssum_loop _ _ _ _ ?vv' ?m'] =>
        specialize (IH (S i) vv' m')
    end.
    cbv zeta in IH.
    cbn [engine_addConstr set_constrs set_vars m_vars m_constrs] in IH.
    rewrite length_app in IH. cbn [List.length] in IH.
    rewrite Nat.add_1_r in IH.
    destruct IH as (IH1 & IH2 & IH3).
    rewrite IH1, IH2, IH3.
    cbn [abs_terms abs_vars abs_rows abs_constraints].
    rewrite <- !app_assoc. cbn [app]. repeat split.
Qed.

Lemma abssum_builds vars m :
  let r := Gurobi.abssum (Gurobi.adapter g) vars coeffs m in
  let base := List.length (m_vars m) in
  fst r = sum_expr (abs_terms coeffs base vars)
  /\ m_vars (snd r) = (m_vars m ++ abs_vars base vars)%list
  /\ m_constrs (snd r) = (m_constrs m ++ abs_rows 0 base vars)%list.
Proof.
  cbv zeta. unfold Gurobi.abssum.
  destruct (abssum_loop_builds vars 0%nat [] m) as (H1 & H2 & H3).
  cbv zeta in H1, H2, H3.
  destruct (Gurobi.abssum_loop _ _ _ _ _ _) as [vv m1].
  cbn [fst snd] in *. cbn [app] in H1. subst vv.
  cbn [Self.quicksum Self.update Gurobi.adapter].
  unfold Gurobi.quicksum, Gurobi.update. auto.
Qed.

Lemma skipn_length_app {A} (l l' : list A) :
  skipn (List.length l) (l ++ l') = l'.
Proof. induction l as [|x l IH]; cbn; auto. Qed.

Lemma weighted_abs_ext rho rho' xs :
  (forall x, In x xs -> rho' (vid x) == rho (vid x)) ->
  weighted_abs coeffs rho' xs == weighted_abs coeffs rho xs.
Proof.
  induction xs as [|x xs IH]; intros H; [reflexivity|].
  cbn [weighted_abs fold_right].
  fold (weighted_abs coeffs rho' xs). fold (weighted_abs coeffs rho xs).
  rewrite IH by (intros; apply H; cbn; auto).
  rewrite (H x) by (cbn; auto). reflexivity.
Qed.

(** The two constraints put the auxiliary variable above [|x|]. *)
Lemma abs_constraints_bound rho i x a :
  (forall c, In c (abs_constraints i x a) -> holds rho (fst c)) ->
  Qabs (rho (vid x)) <= rho (vid a).
Proof.
  intros H.
  assert (H1 := H _ (or_introl eq_refl)).
  assert (H2 := H _ (or_intror (or_introl eq_refl))).
  unfold holds in H1, H2. cbn in H1, H2.
  apply Qabs_Qle_condition. split; lra.
Qed.

(** ... and hold when it has the value [|x|]. *)
Lemma abs_constraints_hold rho i x a :
  rho (vid a) == Qabs (rho (vid x)) ->
  forall c, In c (abs_constraints i x a) -> holds rho (fst c).
Proof.
  intros E c Hc.
  destruct (proj1 (Qabs_Qle_condition (rho (vid x)) (Qabs (rho (vid x))))
                  (Qle_refl _)) as [L U].
  destruct Hc as [<-|[<-|[]]]; unfold holds; cbn; rewrite E; lra.
Qed.

Lemma abs_lower rho xs : forall i id,
  (forall c, In c (abs_rows i id xs) -> holds rho (fst c)) ->
  (forall x, In x xs -> 0 <= coeff_of coeffs (v_name x)) ->
  weighted_abs coeffs rho xs
  <= fold_right (fun e s => eval rho e + s) 0 (abs_terms coeffs id xs).
Proof.
  induction xs as [|x xs IH]; intros i id Hc Hpos; [apply Qle_refl|].
  cbn [weighted_abs abs_terms fold_right eval].
  fold (weighted_abs coeffs rho xs).
  cbn [abs_rows] in Hc.
  assert (B : Qabs (rho (vid x)) <= rho (vid (abs_var id x))).
  { apply (abs_constraints_bound rho i). intros c Hin. apply Hc.
    apply in_or_app. now left. }
  assert (T : weighted_abs coeffs rho xs
              <= fold_right (fun e s => eval rho e + s) 0
                            (abs_terms coeffs (S id) xs)).
  { apply (IH (S i)).
    - intros c Hin. apply Hc. apply in_or_app. now right.
    - intros; apply Hpos; cbn; auto. }
  assert (P : 0 <= coeff_of coeffs (v_name x)) by (apply Hpos; cbn; auto).
  apply Qplus_le_compat; [|exact T].
  rewrite !(Qmult_comm (coeff_of coeffs (v_name x))).
  now apply Qmult_le_compat_r.
Qed.

Lemma abs_attained rho rho' xs : forall i id,
  (forall j x, nth_error xs j = Some x ->
               rho' (id + j)%nat == Qabs (rho (vid x))
               /\ rho' (vid x) == rho (vid x)) ->
  (forall c, In c (abs_rows i id xs) -> holds rho' (fst c))
  /\ fold_right (fun e s => eval rho' e + s) 0 (abs_terms coeffs id xs)
     == weighted_abs coeffs rho xs.
Proof.
  induction xs as [|x xs IH]; intros i id H.
  - split; [intros c []|reflexivity].
  - destruct (H 0%nat x eq_refl) as [Ha Hx]. rewrite Nat.add_0_r in Ha.
    destruct (IH (S i) (S id)) as [IHc IHv].
    { intros j y Hj. specialize (H (S j) y Hj).
      now rewrite Nat.add_succ_r in H. }
    split.
    + intros c Hin. cbn [abs_rows] in Hin. apply in_app_or in Hin.
      destruct Hin as [Hin|Hin]; [|now apply IHc].
      apply (abs_constraints_hold rho' i x (abs_var id x)); [|exact Hin].
      cbn [vid abs_var]. now rewrite Ha, Hx.
    + cbn [abs_terms weighted_abs fold_right eval vid abs_var].
      fold (weighted_abs coeffs rho xs). rewrite IHv, Ha. reflexivity.
Qed.

Lemma abs_vars_In a xs : forall id,
  In a (abs_vars id xs) ->
  exists j x, nth_error xs j = Some x /\ a = abs_var (id + j) x.
Proof.
  induction xs as [|x xs IH]; intros id Hin; [destruct Hin|].
  destruct Hin as [<-|Hin].
  - exists 0%nat, x. now rewrite Nat.add_0_r.
  - destruct (IH _ Hin) as (j & y & Hj & ->).
    exists (S j), y. now rewrite Nat.add_succ_r.
Qed.

Lemma with_abs_old rho base xs id :
  (id < base)%nat -> with_abs rho base xs id = rho id.
Proof.
  intros H. unfold with_abs. apply Nat.ltb_lt in H. now rewrite H.
Qed.

Lemma with_abs_new rho base xs j x :
  nth_error xs j = Some x ->
  with_abs rho base xs (base + j) = Qabs (rho (vid x)).
Proof.
  intros H. unfold with_abs.
  replace (base + j <? base)%nat with false
    by (symmetry; apply Nat.ltb_ge; lia).
  replace (base + j - base)%nat with j by lia. now rewrite H.
Qed.

(** With variables of the model and coefficients that are not negative,
    the returned expression has the weighted sum of absolute values as its
    least value. *)
Lemma abssum_attains vars m :
  (forall x, In x vars -> (vid x < List.length (m_vars m))%nat) ->
  (forall x, In x vars -> 0 <= coeff_of coeffs (v_name x)) ->
  abssum_minimum (Gurobi.adapter g) vars coeffs m.
Proof.
  intros Hx Hpos. unfold abssum_minimum. cbv zeta.
  destruct (abssum_builds vars m) as (He & Hv & Hc). cbv zeta in He, Hv, Hc.
  rewrite He, Hv, Hc, !skipn_length_app.
  intros rho. split.
  - intros rho' Hag Hhold.
    unfold sum_expr. rewrite eval_fold_EAdd. cbn [eval]. rewrite Qplus_0_l.
    rewrite <- (weighted_abs_ext rho rho' vars)
      by (intros x Hin; apply Hag; now apply Hx).
    now apply (abs_lower rho' vars 0%nat).
  - exists (with_abs rho (List.length (m_vars m)) vars).
    destruct (abs_attained rho (with_abs rho (List.length (m_vars m)) vars)
                vars 0%nat (List.length (m_vars m))) as [Hh Hval].
    { intros j x Hj. split.
      - rewrite (with_abs_new _ _ _ _ _ Hj). reflexivity.
      - rewrite with_abs_old; [reflexivity|].
        apply Hx. eapply nth_error_In; eauto. }
    split; [|split; [exact Hh|split]].
    + intros id Hid. now rewrite with_abs_old.
    + intros a Hin. apply abs_vars_In in Hin.
      destruct Hin as (j & x & Hj & ->). cbn [v_lb vid abs_var].
      rewrite (with_abs_new _ _ _ _ _ Hj). apply Qabs_nonneg.
    + unfold sum_expr. rewrite eval_fold_EAdd. cbn [eval].
      rewrite Qplus_0_l. exact Hval.
Qed.

End Abssum.

Example weighted_abs_example :
  weighted_abs Scenario.doubled (fun _ => -(3)) [Scenario.x] == 6.
Proof. reflexivity. Qed.

(** C6, as stated, fails for a negative coefficient: with the coefficient -1
    and [x] fixed to 3, giving the auxiliary variable the value 10 satisfies
    both constraints and makes the returned expression -10, below
    [-1 * |3|]. *)
Lemma abssum_negative_coefficient :
  ~ abssum_minimum Scenario.G [Scenario.x] Scenario.negative Scenario.one_free.
Proof.
  intros H.
  destruct (H (fun _ => 3)) as [L _].
  specialize (L (fun id => if (id =? 1)%nat then 10 else 3)).
  assert (A : forall id, (id < 1)%nat ->
                (if (id =? 1)%nat then 10 else 3) == 3).
  { intros id Hid. destruct id; [reflexivity|lia]. }
  specialize (L A). clear A.
  assert (C : forall c,
             In c (skipn (List.length (m_constrs Scenario.one_free))
                     (m_constrs (snd (Gurobi.abssum Scenario.G [Scenario.x]
                                        Scenario.negative Scenario.one_free)))) ->
             holds (fun id => if (id =? 1)%nat then 10 else 3) (fst c)).
  { intros c [<-|[<-|[]]]; vm_compute; discriminate. }
  specialize (L C). vm_compute in L. apply L. reflexivity.
Qed.

(** C6 (amended). [abssum] adds, for each input variable [x_i], one variable
    [a_i] that the model did not hold, continuous with lower bound 0, and the
    two constraints [a_i + x_i >= 0] and [a_i - x_i >= 0], and returns the sum
    of [c_i * a_i], with [c_i] looked up by the name of [x_i] and 1 when
    absent.  When the [x_i] are variables of the model and no coefficient is
    negative, the least value of the returned expression, for any values
    fixed for the model's variables, is the sum of [c_i * |x_i|]. *)
Theorem abssum_builds_and_attains (g : GurobiPy) (vars : list Var)
    (coeffs : option (list (string * Q))) (m : Model) :
  let r := Gurobi.abssum (Gurobi.adapter g) vars coeffs m in
  let base := List.length (m_vars m) in
  fst r = sum_expr (abs_terms coeffs base vars)
  /\ m_vars (snd r) = (m_vars m ++ abs_vars base vars)%list
  /\ m_constrs (snd r) = (m_constrs m ++ abs_rows 0 base vars)%list
  /\ List.length (abs_vars base vars) = List.length vars
  /\ Forall (fun a => (base <= vid a)%nat /\ v_lb a = 0 /\ v_ub a = Inf)
            (abs_vars base vars)
  /\ ((forall x, In x vars -> (vid x < base)%nat) ->
      (forall x, In x vars -> 0 <= coeff_of coeffs (v_name x)) ->
      abssum_minimum (Gurobi.adapter g) vars coeffs m).
Proof.
  cbv zeta.
  destruct (abssum_builds g coeffs vars m) as (He & Hv & Hc).
  cbv zeta in He, Hv, Hc.
  split; [exact He|]. split; [exact Hv|]. split; [exact Hc|].
  split; [|split].
  - clear He Hv Hc. generalize (List.length (m_vars m)).
    induction vars as [|x xs IH]; intros id; cbn; [reflexivity|].
    now rewrite IH.
  - apply Forall_forall. intros a Hin.
    destruct (abs_vars_In a vars _ Hin) as (j & x & _ & ->).
    cbn. repeat split. lia.
  - apply abssum_attains.
Qed.

(** C6 at the specification's example: one variable, coefficient 2. *)
Lemma abssum_builds_and_attains_witness :
  abssum_minimum Scenario.G [Scenario.x] Scenario.doubled Scenario.one_free.
Proof.
  apply (proj2 (proj2 (proj2 (proj2 (proj2
           (abssum_builds_and_attains Exhaustive.gurobipy [Scenario.x]
              Scenario.doubled Scenario.one_free)))))).
  - intros x [<-|[]]. cbn. lia.
  - intros x [<-|[]]. vm_compute. discriminate.
Defined.

(** ** The factory [model] *)

Section FactoryFacts.
Variable env : Environment.

Lemma model_gurobi name :
  Factory.model env name "gurobi" = Factory.test_gurobi env name.
Proof. reflexivity. Qed.

Lemma model_scip name :
  Factory.model env name "scip" = Factory.test_scip env name.
Proof. reflexivity. Qed.

Lemma model_cbc name :
  Factory.model env name "cbc" = Factory.test_cbc env name.
Proof. reflexivity. Qed.

Lemma test_eqb x solver :
  String.eqb ("test_" ++ x) ("test_" ++ solver) = String.eqb x solver.
Proof. reflexivity. Qed.

Lemma other_local_eqb k solver :
  k = "name" \/ k = "solver" \/ k = "fname" ->
  String.eqb k ("test_" ++ solver) = false.
Proof. intros [-> | [-> | ->]]; reflexivity. Qed.

(** A name other than [any] and the three [test_] functions is refused. *)
Lemma model_unsupported name solver :
  solver <> "any" -> solver <> "gurobi" -> solver <> "scip" -> solver <> "cbc" ->
  Factory.model env name solver
  = Raise (Exception ("ILP solver " ++ solver ++ " is not supported")).
Proof.
  intros Ha Hg Hs Hc.
  apply String.eqb_neq in Ha, Hg, Hs, Hc.
  unfold Factory.model. rewrite Ha.
  rewrite String.eqb_sym in Hg, Hs, Hc.
  unfold Factory.locals. cbn [dict_get].
  change "test_gurobi" with ("test_" ++ "gurobi").
  change "test_scip" with ("test_" ++ "scip").
  change "test_cbc" with ("test_" ++ "cbc").
  rewrite !test_eqb, Hg, Hs, Hc.
  rewrite !other_local_eqb by tauto. reflexivity.
Qed.

End FactoryFacts.

(** C9: what the code does at the failing input.  With an explicit,
    recognized backend name whose package cannot be imported, [model] returns
    [None] instead of raising; only an unrecognized name raises. *)
Theorem model_explicit_unavailable (env : Environment) (name : string) :
  (env_gurobipy env = None -> Factory.model env name "gurobi" = Ret None)
  /\ (env_pyscipopt env = None -> Factory.model env name "scip" = Ret None)
  /\ (env_ortools env = None -> Factory.model env name "cbc" = Ret None)
  /\ (forall solver,
         solver <> "any" -> solver <> "gurobi" -> solver <> "scip" ->
         solver <> "cbc" ->
         Factory.model env name solver
         = Raise (Exception ("ILP solver " ++ solver ++ " is not supported"))).
Proof.
  split; [|split; [|split]].
  - intros H. rewrite model_gurobi. unfold Factory.test_gurobi. now rewrite H.
  - intros H. rewrite model_scip. unfold Factory.test_scip. now rewrite H.
  - intros H. rewrite model_cbc. unfold Factory.test_cbc. now rewrite H.
  - intros solver. apply model_unsupported.
Qed.

Lemma model_explicit_unavailable_witness :
  Factory.model Scenario.bare "m" "gurobi" = Ret None.
Proof.
  apply (proj1 (model_explicit_unavailable Scenario.bare "m")). reflexivity.
Defined.

(** ** The MIPCL adapter *)

(** C10, as stated, names the wrong error: [model] is bound in the module
    (it is the factory function), so the lookup succeeds and [solve] does not
    fail with an undefined-name error. *)
Lemma MIPCL_solve_no_NameError :
  ~ (exists n,
        fst (MIPCL.solve Scenario.mipshell None Scenario.two_binaries)
        = Raise (NameError n)).
Proof. intros [n H]. discriminate H. Qed.

(** C10 (amended). [MIPCL.addConstr] leaves the model as it is, so no
    constraint reaches the engine; and every call of [MIPCL.solve] raises
    before it returns: its test reads [is_solutionOptimal] from the module's
    [model], the factory function, which has no such attribute, so the error
    is an attribute error and no pair of status and objective is returned. *)
Theorem MIPCL_inert_and_failing (mip : MipShell) (c : TempConstr)
    (name : option string) (init : option (Model -> Model)) (m : Model) :
  MIPCL.addConstr c name m = m
  /\ fst (MIPCL.solve mip init m) = Raise (AttributeError "is_solutionOptimal")
  /\ (forall p, fst (MIPCL.solve mip init m) <> Ret p).
Proof.
  split; [reflexivity|]. split; [reflexivity|]. intros p H. discriminate H.
Qed.

(** ** The enumerator never repeats a selection *)

Section Rounding.

Lemma py_round_comp x y : x == y -> py_round x = py_round y.
Proof.
  intros H. unfold py_round. cbv zeta.
  rewrite (Qfloor_comp x y H).
  assert (E : x - inject_Z (Qfloor y) == y - inject_Z (Qfloor y))
    by (rewrite H; reflexivity).
  now rewrite (Qcompare_comp _ _ E (1 # 2) (1 # 2) (Qeq_refl _)).
Qed.

Lemma py_round_0 x : x == 0 -> py_round x = 0%Z.
Proof. intros H. now rewrite (py_round_comp x 0 H). Qed.

Lemma py_round_1 x : x == 1 -> py_round x = 1%Z.
Proof. intros H. now rewrite (py_round_comp x 1 H). Qed.

End Rounding.

Section ListFacts.

Lemma NoDup_map_inj {A B} (f : A -> B) (l : list A) a b :
  NoDup (map f l) -> In a l -> In b l -> f a = f b -> a = b.
Proof.
  induction l as [|x l IH]; intros Hn Ha Hb E; [destruct Ha|].
  cbn in Hn. inversion Hn as [|? ? Hx Hl]; subst.
  destruct Ha as [->|Ha], Hb as [->|Hb]; auto.
  - exfalso. apply Hx. rewrite E. now apply in_map.
  - exfalso. apply Hx. rewrite <- E. now apply in_map.
Qed.

Lemma dict_set_In {V} k (v : V) d p :
  In p (dict_set String.eqb k v d) -> p = (k, v) \/ In p d.
Proof.
  induction d as [|[k' v'] d IH]; cbn.
  - intuition.
  - destruct (String.eqb k' k) eqn:E; cbn.
    + apply String.eqb_eq in E. subst. intuition.
    + intuition.
Qed.

Lemma dict_of_In {V} (items : list (string * V)) p :
  In p (dict_of String.eqb items) -> In p items.
Proof.
  unfold dict_of.
  assert (G : forall d,
             In p (fold_left (fun d kv => dict_set String.eqb (fst kv) (snd kv) d)
                             items d) -> In p d \/ In p items).
  { induction items as [|[k v] items IH]; intros d H; cbn in *.
    - now left.
    - apply IH in H. destruct H as [H|H]; [|tauto].
      apply dict_set_In in H. destruct H as [->|H]; tauto. }
  intros H. apply G in H. destruct H as [[]|H]. exact H.
Qed.

End ListFacts.

Section Distinct.
Variable g : GurobiPy.
Variable init : option (Model -> Model).
Hypothesis Hexact : exact g.
Hypothesis Hkeeps : keeps_model init.

Lemma VType_eqb_eq a b : VType_eqb a b = true <-> a = b.
Proof. destruct a, b; cbn; split; intros H; congruence. Qed.

Lemma run_init_keeps m :
  m_vars (run_init init m) = m_vars m
  /\ m_constrs (run_init init m) = m_constrs m.
Proof.
  unfold run_init. destruct init as [f|] eqn:E; [|auto].
  apply (Hkeeps f eq_refl).
Qed.

(** What a solve that returns [optimal] leaves behind. *)
Lemma solve_optimal m status obj m1 :
  Gurobi.solve g init m = (Ret (status, obj), m1) ->
  status = "optimal" ->
  exists r,
    m_report m1 = Some r
    /\ m_vars m1 = m_vars m
    /\ m_constrs m1 = m_constrs m
    /\ (forall c name, In (c, name) (m_constrs m) -> holds (r_x r) c)
    /\ (forall v, In v (m_vars m) -> v_vtype v = BINARY -> zero_one (r_x r) v).
Proof.
  rewrite Gurobi_solve_unfold. cbv zeta.
  set (m' := run_init init _).
  destruct (run_init_keeps (set_param "logFile" "" (set_param "outputFlag" "0" m)))
    as [Kv Kc].
  fold m' in Kv, Kc. cbn [set_param m_vars m_constrs] in Kv, Kc.
  destruct (dict_get _ _ _) as [status0|] eqn:D; [|discriminate].
  destruct (_ =? _)%Z; [discriminate|].
  intros H Hs. injection H as H1 H2 H3. subst status obj m1.
  destruct (Hexact m' status0 D Hs) as [Hc Hb].
  exists (grb_optimize g m'). cbn [set_report m_report m_vars m_constrs].
  rewrite <- Kv, <- Kc. auto.
Qed.

Lemma selected_In m1 k v :
  In (k, v) (Gurobi.selected (Gurobi.adapter g) m1) ->
  k = v_name v /\ In v (m_vars m1) /\ v_vtype v = BINARY
  /\ eq_one (Gurobi.getValue m1 v) = true.
Proof.
  intros H. apply dict_of_In in H. apply in_map_iff in H.
  destruct H as (w & E & Hw). injection E as <- <-.
  apply filter_In in Hw. destruct Hw as [Hw Hb].
  apply andb_true_iff in Hb. destruct Hb as [Hb He].
  cbn in Hb. apply VType_eqb_eq in Hb. auto.
Qed.

(** A binary variable with a 0/1 value is selected only at 1. *)
Lemma selected_one m1 r v :
  m_report m1 = Some r -> zero_one (r_x r) v -> v_vtype v = BINARY ->
  eq_one (Gurobi.getValue m1 v) = true -> r_x r (vid v) == 1.
Proof.
  intros Hr [Z0|O1] Hb He; [|exact O1].
  unfold Gurobi.getValue, var_x in He. rewrite Hb, Hr in He. cbn in He.
  rewrite (py_round_0 _ Z0) in He. discriminate He.
Qed.

(** Values that are all 1 break the exclusion constraint. *)
Lemma exclusion_violated rho (vv : list (string * Var)) :
  (forall k v, In (k, v) vv -> rho (vid v) == 1) ->
  ~ holds rho (Gurobi.exclusion (Gurobi.adapter g) vv).
Proof.
  intros H Hh. unfold holds, Gurobi.exclusion in Hh.
  cbn [c_sense c_lhs c_rhs le_ eval Self.quicksum Gurobi.adapter] in Hh.
  unfold Gurobi.quicksum in Hh.
  rewrite eval_sum_vars, len_minus_1_eq in Hh.
  rewrite sum_of_ones in Hh.
  - unfold values in Hh. rewrite length_map in Hh. lra.
  - intros v Hv. unfold values in Hv. apply in_map_iff in Hv.
    destruct Hv as ([k w] & <- & Hin). cbn. eapply H; eauto.
Qed.

(** The element of a solve differs from every selection whose exclusion
    constraint the solved model holds. *)
Lemma element_differs m1 r vv status obj :
  m_report m1 = Some r ->
  NoDup (binary_names m1) ->
  holds (r_x r) (Gurobi.exclusion (Gurobi.adapter g) vv) ->
  (forall v, In v (m_vars m1) -> v_vtype v = BINARY -> zero_one (r_x r) v) ->
  (forall k v, In (k, v) vv ->
               k = v_name v /\ In v (m_vars m1) /\ v_vtype v = BINARY) ->
  sol_names (element (Gurobi.adapter g) status obj m1)
  <> sorted_tuple (py_set (keys vv)).
Proof.
  intros Hr Hn Hh H01 Hwk E.
  apply (exclusion_violated (r_x r) vv); [|exact Hh].
  intros k v Hin. destruct (Hwk k v Hin) as (-> & Hv & Hb).
  assert (Hk : In (v_name v) (sol_names (element (Gurobi.adapter g) status obj m1))).
  { rewrite E. apply sorted_tuple_In. unfold keys.
    apply in_map_iff. exists (v_name v, v). auto. }
  apply element_names_In in Hk.
  destruct Hk as (w & Hw & Hwb & Hwe & Hwn).
  cbn in Hw, Hwb, Hwe, Hwn. unfold Gurobi.varName in Hwn.
  assert (w = v).
  { apply (NoDup_map_inj v_name
             (filter (fun v => VType_eqb (v_vtype v) BINARY) (m_vars m1)));
      [exact Hn| | |exact Hwn].
    - apply filter_In. split; [exact Hw|exact Hwb].
    - apply filter_In. split; [exact Hv|]. now apply VType_eqb_eq. }
  subst w. apply (selected_one m1 r v Hr); auto.
Qed.

Lemma cut_vars m1 : m_vars (cut (Gurobi.adapter g) m1) = m_vars m1.
Proof. reflexivity. Qed.

Lemma cut_constrs m1 :
  m_constrs (cut (Gurobi.adapter g) m1)
  = (m_constrs m1
     ++ [(Gurobi.exclusion (Gurobi.adapter g)
            (Gurobi.selected (Gurobi.adapter g) m1), None)])%list.
Proof. reflexivity. Qed.

Lemma binary_names_vars m m' :
  m_vars m' = m_vars m -> binary_names m' = binary_names m.
Proof. unfold binary_names. now intros ->. Qed.

(** A selection excluded by a constraint of the model is never emitted. *)
Lemma excluded_never_emitted fuel :
  forall gap best_obj limit iteration m vv,
    NoDup (binary_names m) ->
    In (Gurobi.exclusion (Gurobi.adapter g) vv, None) (m_constrs m) ->
    (forall k v, In (k, v) vv ->
                 k = v_name v /\ In v (m_vars m) /\ v_vtype v = BINARY) ->
    forall s,
      In s (emitted (Gurobi.solutions (Gurobi.adapter g) fuel gap best_obj
                       limit iteration init m)) ->
      sol_names s <> sorted_tuple (py_set (keys vv)).
Proof.
  induction fuel as [|fuel IH];
    intros gap best_obj limit iteration m vv Hn Hc Hwk s Hs; [destruct Hs|].
  rewrite solutions_step in Hs.
  change (Self.solve (Gurobi.adapter g) init m) with (Gurobi.solve g init m) in Hs.
  destruct (Gurobi.solve g init m) as [[[status obj]|e] m1] eqn:Hsolve;
    [|destruct e; destruct Hs].
  cbv zeta in Hs.
  destruct (String.eqb status "optimal") eqn:Hopt; cbn [negb] in Hs;
    [|destruct Hs].
  apply String.eqb_eq in Hopt.
  destruct (solve_optimal m status obj m1 Hsolve Hopt)
    as (r & Hr & Hv & Hcs & Hholds & H01).
  assert (Hn1 : NoDup (binary_names m1))
    by now rewrite (binary_names_vars m m1 Hv).
  assert (Hy : sol_names (element (Gurobi.adapter g) status obj m1)
               <> sorted_tuple (py_set (keys vv))).
  { apply (element_differs m1 r vv status obj Hr Hn1).
    - now apply (Hholds _ None).
    - rewrite Hv. exact H01.
    - rewrite Hv. exact Hwk. }
  destruct (beyond _ _); [destruct Hs|].
  destruct (_ || _); cbn [emitted fst] in Hs.
  - destruct Hs as [<-|Hs]; [exact Hy|].
    eapply (IH _ _ _ _ _ vv); cycle 3; [exact Hs| | |].
    + now rewrite (binary_names_vars m1 _ (cut_vars m1)).
    + rewrite cut_constrs, Hcs. apply in_or_app. now left.
    + rewrite cut_vars, Hv. exact Hwk.
  - destruct Hs as [<-|[]]. exact Hy.
Qed.

(** The selections emitted are pairwise distinct. *)
Lemma solutions_NoDup fuel :
  forall gap best_obj limit iteration m,
    NoDup (binary_names m) ->
    NoDup (map sol_names
             (emitted (Gurobi.solutions (Gurobi.adapter g) fuel gap best_obj
                         limit iteration init m))).
Proof.
  induction fuel as [|fuel IH]; intros gap best_obj limit iteration m Hn;
    [constructor|].
  rewrite solutions_step.
  change (Self.solve (Gurobi.adapter g) init m) with (Gurobi.solve g init m).
  destruct (Gurobi.solve g init m) as [[[status obj]|e] m1] eqn:Hsolve;
    [|destruct e; constructor].
  cbv zeta.
  destruct (String.eqb status "optimal") eqn:Hopt; cbn [negb]; [|constructor].
  apply String.eqb_eq in Hopt.
  destruct (solve_optimal m status obj m1 Hsolve Hopt)
    as (r & Hr & Hv & Hcs & Hholds & H01).
  assert (Hn1 : NoDup (binary_names m1))
    by now rewrite (binary_names_vars m m1 Hv).
  destruct (beyond _ _); [constructor|].
  destruct (_ || _); cbn [emitted fst map].
  - constructor.
    + intros Hin. apply in_map_iff in Hin. destruct Hin as (s & Es & Hs).
      revert Es.
      eapply (excluded_never_emitted fuel _ _ _ _ _
                (Gurobi.selected (Gurobi.adapter g) m1)); cycle 3;
        [exact Hs| | |].
      * now rewrite (binary_names_vars m1 _ (cut_vars m1)).
      * rewrite cut_constrs. apply in_or_app. right. now left.
      * intros k v Hkv. rewrite cut_vars.
        destruct (selected_In m1 k v Hkv) as (? & ? & ? & _). auto.
    + apply IH. now rewrite (binary_names_vars m1 _ (cut_vars m1)).
  - constructor; [intros []|constructor].
Qed.

End Distinct.

(** ** The exhaustive engine is exact *)

Section ExhaustiveFacts.

Lemma holdsb_holds rho c : holdsb rho c = true -> holds rho c.
Proof.
  unfold holdsb, holds. destruct (c_sense c); intros H.
  - now apply Qle_bool_iff.
  - now apply Qle_bool_iff.
  - now apply Qeq_bool_iff.
Qed.

Lemma least_In m rest : forall cur,
  In (Exhaustive.least m cur rest) (cur :: rest).
Proof.
  induction rest as [|b rest IH]; intros cur; cbn [Exhaustive.least].
  - now left.
  - destruct (Qgt_bool _ _).
    + right. apply IH.
    + destruct (IH cur) as [H|H]; [now left|right; now right].
Qed.

Lemma rho_of_zero_one bits v : zero_one (Exhaustive.rho_of bits) v.
Proof.
  unfold zero_one, Exhaustive.rho_of.
  destruct (nth (vid v) bits false); [right|left]; reflexivity.
Qed.

(** The two reports of the engine. *)
Lemma optimize_cases optimal infeasible m :
  r_status (Exhaustive.optimize optimal infeasible m) = infeasible
  \/ exists bits,
       Exhaustive.feasible m (Exhaustive.rho_of bits) = true
       /\ r_x (Exhaustive.optimize optimal infeasible m) = Exhaustive.rho_of bits.
Proof.
  unfold Exhaustive.optimize.
  destruct (filter _ _) as [|b rest] eqn:F; [now left|right].
  exists (Exhaustive.least m b rest). split; [|reflexivity].
  pose proof (least_In m rest b) as Hin. rewrite <- F in Hin.
  apply filter_In in Hin. apply Hin.
Qed.

Lemma Exhaustive_exact : exact Exhaustive.gurobipy.
Proof.
  intros m status D L. cbn [grb_optimize Exhaustive.gurobipy] in *.
  destruct (optimize_cases 2 3 m) as [E|(bits & F & E)].
  - rewrite E in D. vm_compute in D. injection D as <-.
    vm_compute in L. discriminate L.
  - rewrite E. split.
    + intros c name Hin. apply holdsb_holds.
      unfold Exhaustive.feasible in F. rewrite forallb_forall in F.
      apply (F (c, name) Hin).
    + intros v _ _. apply rho_of_zero_one.
Qed.

End ExhaustiveFacts.

(** C2, as stated, fails when two binary variables carry the same name: the
    names [a.b] and [ab] both sanitize to [ab], and the enumerator emits the
    selection [ab] twice. *)
Lemma solutions_repeat_same_names :
  ~ NoDup (map sol_names
             (emitted (Gurobi.solutions Scenario.G 6 0 None None 0 None
                         Scenario.same_names))).
Proof.
  intros H. vm_compute in H.
  inversion H as [|? ? Hin _]. apply Hin. now left.
Qed.

(** C2 (amended). When the engine's optimal solutions satisfy the model's
    constraints with 0/1 values on the binary variables, the [init] callback
    leaves variables and constraints alone, and the binary variables have
    pairwise distinct names, the selections the enumerator emits are pairwise
    distinct.  Whatever the names, the exclusion constraint built from a
    solved model is violated by the values of that solve, and it is part of
    the model handed to every later solve. *)
Theorem solutions_distinct (g : GurobiPy) (init : option (Model -> Model)) :
  (exact g -> keeps_model init ->
   forall fuel gap best_obj limit iteration m,
     NoDup (binary_names m) ->
     NoDup (map sol_names
              (emitted (Gurobi.solutions (Gurobi.adapter g) fuel gap best_obj
                          limit iteration init m))))
  /\ (forall m1 r,
         m_report m1 = Some r ->
         (forall v, In v (m_vars m1) -> v_vtype v = BINARY -> zero_one (r_x r) v) ->
         ~ holds (r_x r)
             (Gurobi.exclusion (Gurobi.adapter g)
                (Gurobi.selected (Gurobi.adapter g) m1))
         /\ In (Gurobi.exclusion (Gurobi.adapter g)
                  (Gurobi.selected (Gurobi.adapter g) m1), None)
               (m_constrs (cut (Gurobi.adapter g) m1)))
  /\ (keeps_model init ->
      forall c name m,
        In (c, name) (m_constrs m) ->
        In (c, name) (m_constrs (snd (Gurobi.solve g init m)))
        /\ In (c, name) (m_constrs (cut (Gurobi.adapter g) m))).
Proof.
  split; [|split].
  - intros He Hk fuel gap best_obj limit iteration m Hn.
    now apply solutions_NoDup.
  - intros m1 r Hr H01. split.
    + apply exclusion_violated. intros k v Hin.
      destruct (selected_In g m1 k v Hin) as (_ & Hv & Hb & He).
      apply (selected_one m1 r v Hr); auto.
    + rewrite cut_constrs. apply in_or_app. right. now left.
  - intros Hk c name m Hin. split.
    + rewrite Gurobi_solve_unfold. cbv zeta.
      destruct (run_init_keeps init Hk
                  (set_param "logFile" "" (set_param "outputFlag" "0" m)))
        as [_ Kc].
      destruct (dict_get _ _ _); [destruct (_ =? _)%Z|];
        cbn [snd set_report m_constrs]; rewrite Kc; exact Hin.
    + rewrite cut_constrs. apply in_or_app. now left.
Qed.

Lemma solutions_distinct_witness :
  NoDup (map sol_names
           (emitted (Gurobi.solutions Scenario.G 6 0 None None 0 None
                       Scenario.two_binaries))).
Proof.
  apply (proj1 (solutions_distinct Exhaustive.gurobipy None)).
  - exact Exhaustive_exact.
  - intros f E. discriminate E.
  - vm_compute. repeat constructor; cbn; intuition discriminate.
Defined.

(** * Further properties of the module *)

(** ** [escape_name]: what a sanitized name looks like *)

Section EscapeNameShape.

Lemma take_length n s : (String.length (PyStr.take n s) <= n)%nat.
Proof.
  revert s. induction n as [|n IH]; intros [|c s]; cbn; try lia.
  specialize (IH s). lia.
Qed.

Lemma take_all n s : (String.length s <= n)%nat -> PyStr.take n s = s.
Proof.
  revert s. induction n as [|n IH]; intros [|c s]; cbn; intros H;
    try reflexivity; try lia.
  rewrite IH by lia. reflexivity.
Qed.

End EscapeNameShape.

(** X1. A sanitized name holds none of the characters [.], [-], [/] and has
    at most 200 characters. *)
Theorem escape_name_shape (s : string) :
  PyStr.mem "." (escape_name s) = false
  /\ PyStr.mem "-" (escape_name s) = false
  /\ PyStr.mem "/" (escape_name s) = false
  /\ (String.length (escape_name s) <= 200)%nat.
Proof.
  pose proof (proj1 (clean_mem _) (escape_name_clean s)) as (H1 & H2 & H3).
  repeat split; try assumption.
  unfold escape_name. apply take_length.
Qed.

(** X2. The names [escape_name] leaves as they are are exactly those of at
    most 200 characters that hold none of [.], [-], [/]. *)
Theorem escape_name_fixed_points (s : string) :
  escape_name s = s <->
  (PyStr.mem "." s = false /\ PyStr.mem "-" s = false /\ PyStr.mem "/" s = false
   /\ (String.length s <= 200)%nat).
Proof.
  split.
  - intros E. rewrite <- E.
    pose proof (proj1 (clean_mem _) (escape_name_clean s)) as (H1 & H2 & H3).
    repeat split; try assumption.
    unfold escape_name. apply take_length.
  - intros (H1 & H2 & H3 & HL).
    rewrite escape_name_of_clean by (apply clean_mem; auto).
    now apply take_all.
Qed.

(** ** [round] and [getValue] *)

Section RoundFacts.

Lemma floor_bounds x :
  inject_Z (Qfloor x) <= x /\ x < inject_Z (Qfloor x) + 1.
Proof.
  split; [apply Qfloor_le|].
  pose proof (Qlt_floor x) as H. rewrite inject_Z_plus in H. exact H.
Qed.

Lemma Z_pos_Q (z : Z) : (0 < z)%Z <-> 0 < inject_Z z.
Proof. rewrite Zlt_Qlt. reflexivity. Qed.

Lemma Z_ge1_Q (z : Z) : (0 < z)%Z -> 1 <= inject_Z z.
Proof.
  intros H. assert (H1 : (1 <= z)%Z) by lia.
  rewrite Zle_Qle in H1. exact H1.
Qed.

Lemma Z_nonneg_Q (z : Z) : - (1) < inject_Z z -> (0 <= z)%Z.
Proof.
  intros H. assert (H1 : (-1 < z)%Z) by (rewrite Zlt_Qlt; exact H). lia.
Qed.

Lemma py_round_near x :
  inject_Z (py_round x) - (1 # 2) <= x /\ x <= inject_Z (py_round x) + (1 # 2).
Proof.
  unfold py_round. cbv zeta.
  destruct (floor_bounds x) as [L U].
  destruct (Qcompare_spec (x - inject_Z (Qfloor x)) (1 # 2)) as [E|E|E].
  - destruct (Z.even (Qfloor x));
      [|rewrite inject_Z_plus; change (inject_Z 1) with 1]; split; lra.
  - split; lra.
  - rewrite inject_Z_plus. change (inject_Z 1) with 1. split; lra.
Qed.

Lemma py_round_pos x : (0 < py_round x)%Z <-> (1 # 2) < x.
Proof.
  unfold py_round. cbv zeta.
  destruct (floor_bounds x) as [L U].
  destruct (Qcompare_spec (x - inject_Z (Qfloor x)) (1 # 2)) as [E|E|E].
  - destruct (Z.even (Qfloor x)) eqn:Ev.
    + rewrite Z_pos_Q. split; intros H; lra.
    + split; intros H.
      * assert (0 <= Qfloor x)%Z by lia.
        assert (Qfloor x <> 0)%Z by (intros Z0; rewrite Z0 in Ev; discriminate).
        assert (P : (0 < Qfloor x)%Z) by lia.
        apply Z_ge1_Q in P. lra.
      * assert (P : 0 < inject_Z (Qfloor x)) by lra.
        apply Z_pos_Q in P. lia.
  - split; intros H.
    + apply Z_ge1_Q in H. lra.
    + apply Z_pos_Q. lra.
  - split; intros H.
    + assert (P : (0 <= Qfloor x)%Z) by lia.
      rewrite Zle_Qle in P. change (inject_Z 0) with 0 in P. lra.
    + assert (P : (0 <= Qfloor x)%Z) by (apply Z_nonneg_Q; lra). lia.
Qed.

End RoundFacts.

(** [round] goes to a nearest integer (within one half of its argument)
    and gives back every integer value as it is. *)
Lemma py_round_nearest (x : Q) (z : Z) :
  Qabs (inject_Z (py_round x) - x) <= 1 # 2
  /\ py_round (inject_Z z) = z.
Proof.
  split.
  - destruct (py_round_near x) as [L U].
    apply Qabs_Qle_condition. split; lra.
  - unfold py_round. cbv zeta. rewrite Qfloor_Z.
    assert (L : inject_Z z - inject_Z z < 1 # 2) by lra.
    now rewrite (proj1 (Qlt_alt _ _) L).
Qed.

(** X3. On the Gurobi and SCIP adapters the value of an integer variable is
    an integer within one half of the solver's value, and it is the solver's
    value itself when that value is a whole number. *)
Theorem getValue_integer (m : Model) (var : Var) :
  v_vtype var = INTEGER ->
  exists k : Z,
    Gurobi.getValue m var = VInt k
    /\ SCIP.getValue m var = VInt k
    /\ Qabs (inject_Z k - var_x m var) <= 1 # 2
    /\ (forall z : Z, var_x m var == inject_Z z -> k = z).
Proof.
  intros H. exists (py_round (var_x m var)).
  unfold SCIP.getValue, Gurobi.getValue. cbv zeta. rewrite H. cbn [VType_eqb].
  split; [reflexivity|]. split; [reflexivity|].
  split; [apply (py_round_nearest (var_x m var) 0)|].
  intros z Hz. rewrite (py_round_comp _ _ Hz).
  apply (py_round_nearest 0 z).
Qed.

Lemma getValue_integer_witness :
  exists k : Z,
    Gurobi.getValue (new_model "m") (mkVar 0 "n" INTEGER 0 Inf) = VInt k
    /\ SCIP.getValue (new_model "m") (mkVar 0 "n" INTEGER 0 Inf) = VInt k
    /\ Qabs (inject_Z k - var_x (new_model "m") (mkVar 0 "n" INTEGER 0 Inf))
       <= 1 # 2
    /\ (forall z : Z,
          var_x (new_model "m") (mkVar 0 "n" INTEGER 0 Inf) == inject_Z z ->
          k = z).
Proof.
  apply (getValue_integer (new_model "m") (mkVar 0 "n" INTEGER 0 Inf)).
  reflexivity.
Defined.

(** X4. On the Gurobi and SCIP adapters the value of a binary variable is the
    boolean "the solver's value is above one half", the value of an integer
    variable is the rounded integer, and the value of any other variable is
    the solver's value itself. *)
Theorem getValue_by_type (m : Model) (var : Var) :
  SCIP.getValue m var = Gurobi.getValue m var
  /\ (v_vtype var = BINARY ->
      exists b, Gurobi.getValue m var = VBool b
                /\ (b = true <-> (1 # 2) < var_x m var))
  /\ (v_vtype var = INTEGER ->
      Gurobi.getValue m var = VInt (py_round (var_x m var)))
  /\ (v_vtype var = CONTINUOUS -> Gurobi.getValue m var = VFloat (var_x m var)).
Proof.
  split; [reflexivity|]. unfold Gurobi.getValue.
  split; [|split]; intros H; rewrite H; cbn; [|reflexivity|reflexivity].
  eexists. split; [reflexivity|].
  rewrite <- py_round_pos. rewrite Z.gtb_ltb. apply Z.ltb_lt.
Qed.

Lemma getValue_by_type_witness :
  exists b, Gurobi.getValue (new_model "m") (mkVar 0 "x" BINARY 0 (Fin 1)) = VBool b
            /\ (b = true <-> (1 # 2) < var_x (new_model "m")
                                              (mkVar 0 "x" BINARY 0 (Fin 1))).
Proof.
  apply (proj1 (proj2 (getValue_by_type (new_model "m")
                         (mkVar 0 "x" BINARY 0 (Fin 1))))).
  reflexivity.
Defined.

(** ** [addVar], [addConstr] and [is_binary] *)

Section AddVarFacts.

Lemma engine_addVar_spec name vt lb ub m :
  let v := fst (engine_addVar name vt lb ub m) in
  let m' := snd (engine_addVar name vt lb ub m) in
  v = mkVar (List.length (m_vars m)) name vt lb ub
  /\ m_vars m' = (m_vars m ++ [v])%list
  /\ m_constrs m' = m_constrs m
  /\ m_objective m' = m_objective m.
Proof. cbv zeta. cbn. auto. Qed.

Lemma Gurobi_addVar_engine kw m :
  exists name vt lb ub,
    Gurobi.addVar kw m = engine_addVar (escape_name name) vt lb ub m.
Proof.
  unfold Gurobi.addVar.
  exists (match kw_name kw with Some n => n | None => "" end).
  eexists. eexists. eexists.
  destruct (kw_name kw); cbn [engine_addVar];
    destruct (match kw_update kw with Some u => u | None => true end);
    reflexivity.
Qed.

Lemma SCIP_addVar_engine kw m :
  exists name vt lb ub,
    SCIP.addVar kw m = engine_addVar (escape_name name) vt lb ub m.
Proof.
  unfold SCIP.addVar.
  exists (match kw_name kw with Some n => n | None => "" end).
  eexists. eexists. eexists. destruct (kw_name kw); reflexivity.
Qed.

Lemma CBC_addVar_engine kw m :
  exists name vt lb ub,
    CBC.addVar kw m = engine_addVar (escape_name name) vt lb ub m.
Proof.
  unfold CBC.addVar.
  exists (match kw_name kw with Some n => n | None => "" end).
  destruct (kw_vtype kw) as [t|]; [|eexists; eexists; eexists; reflexivity].
  destruct (String.eqb t "B"); [eexists; eexists; eexists; reflexivity|].
  destruct (String.eqb t "I"); eexists; eexists; eexists; reflexivity.
Qed.

Lemma escape_name_twice s : escape_name (escape_name s) = escape_name s.
Proof.
  rewrite (escape_name_of_clean (escape_name s)) by apply escape_name_clean.
  unfold escape_name. apply take_take.
Qed.

End AddVarFacts.

(** X5. On the Gurobi, SCIP and CBC adapters [addVar] adds exactly one
    variable, the one it returns: last in the model, numbered after the
    variables present, under a sanitized name, with constraints and objective
    untouched. *)
Theorem addVar_adds_one (kw : VarArgs) (m : Model) :
  adds_one_variable (Gurobi.addVar kw m) m
  /\ adds_one_variable (SCIP.addVar kw m) m
  /\ adds_one_variable (CBC.addVar kw m) m.
Proof.
  assert (G : forall name vt lb ub,
             adds_one_variable (engine_addVar (escape_name name) vt lb ub m) m).
  { intros name vt lb ub. unfold adds_one_variable.
    cbn [fst snd engine_addVar m_vars m_constrs m_objective set_vars vid v_name].
    rewrite escape_name_twice. auto. }
  destruct (Gurobi_addVar_engine kw m) as (n1 & t1 & l1 & u1 & E1).
  destruct (SCIP_addVar_engine kw m) as (n2 & t2 & l2 & u2 & E2).
  destruct (CBC_addVar_engine kw m) as (n3 & t3 & l3 & u3 & E3).
  rewrite E1, E2, E3. auto.
Qed.

Section BinaryFacts.
Variable SOLUTION_PRECISION : Q.

Lemma CBC_is_binary_iff m v :
  CBC.is_binary SOLUTION_PRECISION m v = true <->
  v_vtype v = INTEGER
  /\ Qabs (v_lb v) < SOLUTION_PRECISION
  /\ exists u, v_ub v = Fin u /\ Qabs (1 - u) < SOLUTION_PRECISION.
Proof.
  unfold CBC.is_binary, CBC.getValue, CBC.unit_bounds. cbv zeta.
  destruct (v_vtype v); cbn [VType_eqb is_bool];
    try (split; [discriminate | intros (H & _); discriminate]).
  destruct (v_ub v) as [u|].
  - destruct (Qgt_bool SOLUTION_PRECISION (Qabs (v_lb v))) eqn:A;
      destruct (Qgt_bool SOLUTION_PRECISION (Qabs (1 - u))) eqn:B;
      cbn [andb is_bool]; split; try discriminate.
    + intros _. apply Qgt_bool_true in A, B. eauto.
    + reflexivity.
    + intros (_ & _ & u' & Eu & Hu). injection Eu as <-.
      apply Qgt_bool_true in Hu. congruence.
    + intros (_ & Hl & _). apply Qgt_bool_true in Hl. congruence.
    + intros (_ & Hl & _). apply Qgt_bool_true in Hl. congruence.
  - rewrite andb_false_r. cbn [is_bool]. split; [discriminate|].
    intros (_ & _ & u & Eu & _). discriminate Eu.
Qed.

End BinaryFacts.

(** X6. A variable created with [vtype='B'] is recognised by [is_binary]
    whatever the state of the model, on the Gurobi and SCIP adapters and,
    when [SOLUTION_PRECISION] is positive, on the CBC adapter; a variable
    created without a [vtype] is recognised by none of them. *)
Theorem addVar_is_binary (SOLUTION_PRECISION : Q) (kw : VarArgs) (m m' : Model) :
  (kw_vtype kw = Some "B" ->
   Gurobi.is_binary m' (fst (Gurobi.addVar kw m)) = true
   /\ SCIP.is_binary m' (fst (SCIP.addVar kw m)) = true
   /\ (0 < SOLUTION_PRECISION ->
       CBC.is_binary SOLUTION_PRECISION m' (fst (CBC.addVar kw m)) = true))
  /\ (kw_vtype kw = None ->
      Gurobi.is_binary m' (fst (Gurobi.addVar kw m)) = false
      /\ SCIP.is_binary m' (fst (SCIP.addVar kw m)) = false
      /\ CBC.is_binary SOLUTION_PRECISION m' (fst (CBC.addVar kw m)) = false).
Proof.
  split; intros H.
  - split; [|split].
    + unfold Gurobi.addVar. rewrite H. cbn [String.eqb Ascii.eqb Bool.eqb].
      cbn [engine_addVar]. reflexivity.
    + unfold SCIP.addVar. rewrite H. reflexivity.
    + intros Hp. apply CBC_is_binary_iff.
      unfold CBC.addVar. rewrite H. cbn.
      split; [reflexivity|]. split; [exact Hp|].
      exists 1. split; [reflexivity|exact Hp].
  - split; [|split].
    + unfold Gurobi.addVar. rewrite H. reflexivity.
    + unfold SCIP.addVar. rewrite H. reflexivity.
    + unfold CBC.addVar. rewrite H. reflexivity.
Qed.

Lemma addVar_is_binary_witness :
  Gurobi.is_binary Scenario.two_binaries
    (fst (Gurobi.addVar (Scenario.binary "b") (new_model "m"))) = true
  /\ Gurobi.is_binary Scenario.two_binaries
       (fst (Gurobi.addVar (Scenario.free "f") (new_model "m"))) = false.
Proof.
  split.
  - apply (proj1 (proj1 (addVar_is_binary (1 # 100) (Scenario.binary "b")
                           (new_model "m") Scenario.two_binaries) eq_refl)).
  - apply (proj1 (proj2 (addVar_is_binary (1 # 100) (Scenario.free "f")
                           (new_model "m") Scenario.two_binaries) eq_refl)).
Defined.

(** X7. The CBC adapter has no binary type to ask for: it takes a variable
    for binary exactly when the variable is an integer one whose lower bound
    is within [SOLUTION_PRECISION] of 0 and whose upper bound is within
    [SOLUTION_PRECISION] of 1.  So an integer variable created with bounds 0
    and 1 counts as binary on CBC, and not on Gurobi. *)
Theorem CBC_binary_by_bounds (SOLUTION_PRECISION : Q) (m : Model) (v : Var) :
  (CBC.is_binary SOLUTION_PRECISION m v = true <->
   v_vtype v = INTEGER
   /\ Qabs (v_lb v) < SOLUTION_PRECISION
   /\ exists u, v_ub v = Fin u /\ Qabs (1 - u) < SOLUTION_PRECISION)
  /\ (0 < SOLUTION_PRECISION ->
      forall name m0,
        let kw := mkVarArgs (Some 0) (Some (Fin 1)) (Some "I") name None in
        CBC.is_binary SOLUTION_PRECISION m (fst (CBC.addVar kw m0)) = true
        /\ Gurobi.is_binary m (fst (Gurobi.addVar kw m0)) = false).
Proof.
  split; [apply CBC_is_binary_iff|].
  intros Hp name m0. cbv zeta. split; [|reflexivity].
  apply CBC_is_binary_iff. cbn.
  split; [reflexivity|]. split; [exact Hp|].
  exists 1. split; [reflexivity|exact Hp].
Qed.

Lemma CBC_binary_by_bounds_witness :
  CBC.is_binary (1 # 100) (new_model "m")
    (fst (CBC.addVar (mkVarArgs (Some 0) (Some (Fin 1)) (Some "I") None None)
            (new_model "m"))) = true.
Proof.
  apply (proj2 (CBC_binary_by_bounds (1 # 100) (new_model "m")
                  (mkVar 0 "" INTEGER 0 (Fin 1)))).
  reflexivity.
Defined.

(** ** Status tables *)

Section Lookup.
Context {V : Type}.

Lemma dict_get_In_NoDup (d : list (Z * V)) k v :
  NoDup (keys d) -> In (k, v) d -> dict_get Z.eqb k d = Some v.
Proof.
  induction d as [|[k' v'] d IH]; intros Hn Hin; [destruct Hin|].
  cbn in Hn. inversion Hn as [|? ? Hk Hd]; subst. cbn [dict_get].
  destruct Hin as [E|Hin].
  - injection E as -> ->. now rewrite Z.eqb_refl.
  - destruct (Z.eqb k' k) eqn:E.
    + apply Z.eqb_eq in E. subst k'. exfalso. apply Hk.
      unfold keys. apply in_map_iff. exists (k, v). auto.
    + now apply IH.
Qed.

Lemma dict_get_absent (d : list (Z * V)) k :
  ~ In k (keys d) -> dict_get Z.eqb k d = None.
Proof.
  induction d as [|[k' v'] d IH]; intros H; [reflexivity|].
  cbn [dict_get]. destruct (Z.eqb k' k) eqn:E.
  - apply Z.eqb_eq in E. subst. exfalso. apply H. now left.
  - apply IH. intros Hin. apply H. now right.
Qed.

Lemma dict_get_Some_In (d : list (Z * V)) k v :
  dict_get Z.eqb k d = Some v -> In (k, v) d.
Proof.
  induction d as [|[k' v'] d IH]; cbn [dict_get]; intros H; [discriminate|].
  destruct (Z.eqb k' k) eqn:E.
  - apply Z.eqb_eq in E. injection H as ->. subst. now left.
  - right. now apply IH.
Qed.

End Lookup.

Section GurobiStatus.
Variable g : GurobiPy.

Lemma GUROBI_STATUS_items :
  Gurobi.GUROBI_STATUS g
  = dict_of Z.eqb (map (fun vc => (snd vc, fst vc)) (status_attrs g)).
Proof. reflexivity. Qed.

Lemma GUROBI_STATUS_In code name :
  In (code, name) (Gurobi.GUROBI_STATUS g) ->
  In (name, code) (GRB_status g) /\ PyStr.take 2 name <> "__".
Proof.
  rewrite GUROBI_STATUS_items. intros H.
  assert (H' : In (code, name) (map (fun vc => (snd vc, fst vc)) (status_attrs g))).
  { revert H. generalize (map (fun vc : string * Z => (snd vc, fst vc))
                              (status_attrs g)).
    intros items. unfold dict_of.
    assert (G : forall d,
               In (code, name)
                  (fold_left (fun d kv => dict_set Z.eqb (fst kv) (snd kv) d) items d)
               -> In (code, name) d \/ In (code, name) items).
    { induction items as [|[k v] items IH]; intros d H; cbn in *; [now left|].
      apply IH in H. destruct H as [H|H]; [|tauto].
      clear IH. induction d as [|[k' v'] d IHd]; cbn in H.
      - destruct H as [H|[]]. tauto.
      - destruct (Z.eqb k' k) eqn:E.
        + apply Z.eqb_eq in E. subst k'. destruct H as [H|H].
          * injection H as <- <-. tauto.
          * left. now right.
        + destruct H as [H|H]; [left; now left|].
          destruct (IHd H) as [H1|H1]; [left; now right|now right]. }
    intros H. apply G in H. destruct H as [[]|H]. exact H. }
  apply in_map_iff in H'. destruct H' as ([n c] & E & Hin).
  cbn in E. injection E as -> ->.
  unfold status_attrs in Hin. apply filter_In in Hin. destruct Hin as [Hin Hd].
  cbn in Hd. split; [exact Hin|].
  apply negb_true_iff in Hd. now apply String.eqb_neq.
Qed.

Lemma GUROBI_STATUS_lookup code name :
  NoDup (map snd (status_attrs g)) ->
  In (name, code) (GRB_status g) -> PyStr.take 2 name <> "__" ->
  dict_get Z.eqb code (Gurobi.GUROBI_STATUS g) = Some name.
Proof.
  intros Hn Hin Hd. rewrite GUROBI_STATUS_items.
  assert (Hk : map fst (map (fun vc : string * Z => (snd vc, fst vc))
                            (status_attrs g))
               = map snd (status_attrs g))
    by (rewrite map_map; reflexivity).
  rewrite (dict_of_NoDup Z.eqb Z.eqb_eq) by (rewrite Hk; exact Hn).
  apply dict_get_In_NoDup.
  - unfold keys. rewrite Hk. exact Hn.
  - apply in_map_iff. exists (name, code). split; [reflexivity|].
    unfold status_attrs. apply filter_In. split; [exact Hin|].
    cbn. apply negb_true_iff. now apply String.eqb_neq.
Qed.

Lemma GUROBI_STATUS_missing code :
  ~ In code (map snd (status_attrs g)) ->
  dict_get Z.eqb code (Gurobi.GUROBI_STATUS g) = None.
Proof.
  intros H. apply dict_get_absent. intros Hin. apply H.
  rewrite GUROBI_STATUS_items in Hin.
  apply (proj1 (dict_of_keys_In Z.eqb Z.eqb_eq _ code)) in Hin.
  apply in_map_iff in Hin. destruct Hin as ([c n] & E & Hin).
  cbn in E. subst c.
  apply in_map_iff in Hin. destruct Hin as ([n' c'] & E & Hin).
  cbn in E. injection E as <- <-.
  apply in_map_iff. exists (n', c'). auto.
Qed.

End GurobiStatus.

(** X8. [GUROBI_STATUS] maps a status value back to its name: when the
    attributes of [GRB.status] whose names do not start with two underscores
    have pairwise distinct values, looking up the value of such an attribute
    gives its name; and whatever the attributes, every entry of the table is
    one of them. *)
Theorem GUROBI_STATUS_round_trip (g : GurobiPy) (code : Z) (name : string) :
  (NoDup (map snd (status_attrs g)) ->
   In (name, code) (GRB_status g) -> PyStr.take 2 name <> "__" ->
   dict_get Z.eqb code (Gurobi.GUROBI_STATUS g) = Some name)
  /\ (dict_get Z.eqb code (Gurobi.GUROBI_STATUS g) = Some name ->
      In (name, code) (GRB_status g) /\ PyStr.take 2 name <> "__").
Proof.
  split.
  - apply GUROBI_STATUS_lookup.
  - intros H. apply GUROBI_STATUS_In. now apply dict_get_Some_In.
Qed.

Lemma GUROBI_STATUS_round_trip_witness :
  dict_get Z.eqb 9%Z (Gurobi.GUROBI_STATUS Exhaustive.gurobipy)
  = Some "TIME_LIMIT".
Proof.
  apply (proj1 (GUROBI_STATUS_round_trip Exhaustive.gurobipy 9%Z "TIME_LIMIT")).
  - vm_compute. repeat constructor; cbn; intuition discriminate.
  - vm_compute. tauto.
  - discriminate.
Defined.

(** X9. When the engine reports a status value that no attribute of
    [GRB.status] (outside the double-underscore ones) has, [Gurobi.solve]
    raises [KeyError], and the enumerator passes that error on to its
    consumer without emitting anything. *)
Theorem Gurobi_unlisted_status (g : GurobiPy) (init : option (Model -> Model))
    (m : Model) (r : Report) :
  m_report (snd (Gurobi.solve g init m)) = Some r ->
  ~ In (r_status r) (map snd (status_attrs g)) ->
  fst (Gurobi.solve g init m) = Raise KeyError
  /\ forall fuel gap best_obj limit iteration,
       let t := Gurobi.solutions (Gurobi.adapter g) (S fuel) gap best_obj limit
                  iteration init m in
       emitted t = [] /\ ending t = Raised KeyError.
Proof.
  intros Hr Hn. rewrite Gurobi_solve_report in Hr. injection Hr as Hr.
  assert (E : fst (Gurobi.solve g init m) = Raise KeyError).
  { rewrite Gurobi_solve_unfold. cbv zeta. rewrite Hr.
    now rewrite (GUROBI_STATUS_missing g _ Hn). }
  split; [exact E|].
  intros fuel gap best_obj limit iteration. cbv zeta.
  rewrite solutions_step.
  change (Self.solve (Gurobi.adapter g) init m) with (Gurobi.solve g init m).
  destruct (Gurobi.solve g init m) as [res m1]. cbn [fst] in E. subst res.
  split; reflexivity.
Qed.

Lemma Gurobi_unlisted_status_witness :
  fst (Gurobi.solve
         (Exhaustive.constant_gurobipy
            (mkReport 99 "" 0 (fun _ => 0) (fun _ _ => true)))
         None (new_model "m"))
  = Raise KeyError.
Proof.
  apply (Gurobi_unlisted_status
           (Exhaustive.constant_gurobipy
              (mkReport 99 "" 0 (fun _ => 0) (fun _ _ => true)))
           None (new_model "m") _ eq_refl).
  vm_compute. intuition discriminate.
Defined.

Section CBCStatus.
Variable o : ORTools.
Hypothesis distinct : NoDup (named_codes o).

Lemma CBC_STATUS_items_eq :
  CBC.STATUS_items o
  = [ (OPTIMAL o, "OPTIMAL"); (FEASIBLE o, "FEASIBLE");
      (INFEASIBLE o, "INFEASIBLE"); (UNBOUNDED o, "UNBOUNDED");
      (ABNORMAL o, "ABNORMAL"); (NOT_SOLVED o, "NOT_SOLVED") ].
Proof.
  unfold CBC.STATUS_items. apply (dict_of_NoDup Z.eqb Z.eqb_eq). exact distinct.
Qed.

Lemma CBC_STATUS_named code name :
  In (code, name) (CBC.STATUS_items o) -> CBC.STATUS o code = name.
Proof.
  intros H. unfold CBC.STATUS.
  rewrite (dict_get_In_NoDup _ code name); [reflexivity| |exact H].
  rewrite CBC_STATUS_items_eq. exact distinct.
Qed.

Lemma CBC_STATUS_unnamed code :
  ~ In code (named_codes o) -> CBC.STATUS o code = "UNKNOWN".
Proof.
  intros H. unfold CBC.STATUS. rewrite dict_get_absent; [reflexivity|].
  rewrite CBC_STATUS_items_eq. exact H.
Qed.

Lemma CBC_STATUS_optimal code :
  PyStr.lower (CBC.STATUS o code) = "optimal" <-> code = OPTIMAL o.
Proof.
  split.
  - intros H. unfold CBC.STATUS in H. rewrite CBC_STATUS_items_eq in H.
    cbn [dict_get] in H.
    destruct (Z.eqb (OPTIMAL o) code) eqn:E; [now apply Z.eqb_eq in E|].
    repeat match type of H with
           | context [if ?b then _ else _] => destruct b
           end; discriminate H.
  - intros ->. rewrite (CBC_STATUS_named (OPTIMAL o) "OPTIMAL"); [reflexivity|].
    rewrite CBC_STATUS_items_eq. now left.
Qed.

End CBCStatus.

(** X10. When the six status codes of ortools are pairwise distinct, a
    [CBC.solve] that returns reports the status [optimal] exactly when the
    engine's code is [OPTIMAL], and reports [unknown] for every code that is
    none of the six. *)
Theorem CBC_solve_status (o : ORTools) (init : option (Model -> Model))
    (m : Model) (r : Report) (status : string) (obj : Q) :
  NoDup (named_codes o) ->
  m_report (snd (CBC.solve o init m)) = Some r ->
  fst (CBC.solve o init m) = Ret (status, obj) ->
  (status = "optimal" <-> r_status r = OPTIMAL o)
  /\ (~ In (r_status r) (named_codes o) -> status = "unknown")
  /\ obj = r_objVal r.
Proof.
  intros Hd Hr. rewrite CBC_solve_report in Hr. injection Hr as Hr.
  unfold CBC.solve. cbv zeta. rewrite Hr.
  destruct (_ =? _)%Z; [discriminate|].
  destruct (negb _); [discriminate|].
  cbn [fst]. intros E. injection E as <- <-.
  split; [now apply CBC_STATUS_optimal|]. split; [|reflexivity].
  intros Hn. now rewrite (CBC_STATUS_unnamed o Hd _ Hn).
Qed.

Lemma CBC_solve_status_witness :
  "optimal" = "optimal" <->
  r_status (cbc_Solve Exhaustive.ortools Scenario.two_binaries)
  = OPTIMAL Exhaustive.ortools.
Proof.
  apply (CBC_solve_status Exhaustive.ortools None Scenario.two_binaries
           _ "optimal" 1).
  - vm_compute. repeat constructor; cbn; intuition discriminate.
  - reflexivity.
  - reflexivity.
Defined.

(** ** The factory: which solver comes back *)

(** X11. With [solver = 'any'] the factory takes the first package that
    imports, in the order gurobipy, pyscipopt, ortools, and wraps a fresh,
    empty model of the given name; it raises when none imports and never
    returns [None]. *)
Theorem model_any_order (env : Environment) (name : string) :
  (forall g, env_gurobipy env = Some g ->
     Factory.model env name "any"
     = Ret (Some (mkSolver (Gurobi.adapter g) (new_model name))))
  /\ (forall p, env_gurobipy env = None -> env_pyscipopt env = Some p ->
        Factory.model env name "any"
        = Ret (Some (mkSolver (SCIP.adapter p) (new_model name))))
  /\ (forall o, env_gurobipy env = None -> env_pyscipopt env = None ->
        env_ortools env = Some o ->
        Factory.model env name "any"
        = Ret (Some (mkSolver (CBC.adapter o (env_SOLUTION_PRECISION env))
                              (new_model name))))
  /\ (env_gurobipy env = None -> env_pyscipopt env = None ->
      env_ortools env = None ->
      Factory.model env name "any" = Raise (Exception Factory.no_solver_message))
  /\ Factory.model env name "any" <> Ret None.
Proof.
  unfold Factory.model, Factory.test_gurobi, Factory.test_scip, Factory.test_cbc,
    Gurobi.__init__, SCIP.__init__, CBC.__init__, import_module.
  cbn [String.eqb Ascii.eqb Bool.eqb].
  repeat split.
  - intros g ->. reflexivity.
  - intros p -> ->. reflexivity.
  - intros o -> -> ->. reflexivity.
  - intros -> -> ->. reflexivity.
  - destruct (env_gurobipy env), (env_pyscipopt env), (env_ortools env);
      discriminate.
Qed.

Lemma model_any_order_witness :
  Factory.model (mkEnvironment None (Some Exhaustive.pyscipopt)
                               (Some Exhaustive.ortools) (1 # 100)) "m" "any"
  = Ret (Some (mkSolver (SCIP.adapter Exhaustive.pyscipopt) (new_model "m"))).
Proof.
  apply (proj1 (proj2 (model_any_order
           (mkEnvironment None (Some Exhaustive.pyscipopt)
                          (Some Exhaustive.ortools) (1 # 100)) "m"))
           Exhaustive.pyscipopt eq_refl eq_refl).
Defined.

(** X12. With an explicit name whose package imports, the factory returns
    the adapter of that name over a fresh, empty model, whatever else is
    installed. *)
Theorem model_explicit_installed (env : Environment) (name : string) :
  (forall g, env_gurobipy env = Some g ->
     Factory.model env name "gurobi"
     = Ret (Some (mkSolver (Gurobi.adapter g) (new_model name))))
  /\ (forall p, env_pyscipopt env = Some p ->
        Factory.model env name "scip"
        = Ret (Some (mkSolver (SCIP.adapter p) (new_model name))))
  /\ (forall o, env_ortools env = Some o ->
        Factory.model env name "cbc"
        = Ret (Some (mkSolver (CBC.adapter o (env_SOLUTION_PRECISION env))
                              (new_model name)))).
Proof.
  split; [|split].
  - intros g H. rewrite model_gurobi. unfold Factory.test_gurobi. now rewrite H.
  - intros p H. rewrite model_scip. unfold Factory.test_scip. now rewrite H.
  - intros o H. rewrite model_cbc. unfold Factory.test_cbc. now rewrite H.
Qed.

Lemma model_explicit_installed_witness :
  Factory.model (mkEnvironment (Some Exhaustive.gurobipy) None
                               (Some Exhaustive.ortools) (1 # 100)) "m" "cbc"
  = Ret (Some (mkSolver (CBC.adapter Exhaustive.ortools (1 # 100))
                        (new_model "m"))).
Proof.
  apply (proj2 (proj2 (model_explicit_installed
           (mkEnvironment (Some Exhaustive.gurobipy) None
                          (Some Exhaustive.ortools) (1 # 100)) "m"))
           Exhaustive.ortools eq_refl).
Defined.

(** ** More about the enumerator *)

Section EnumeratorMore.
Variable self : Adapter.

Lemma solutions_prefix f : forall f' gap best_obj limit iteration init m,
  (f <= f')%nat ->
  emitted (Gurobi.solutions self f gap best_obj limit iteration init m)
  = firstn f (emitted (Gurobi.solutions self f' gap best_obj limit iteration
                         init m)).
Proof.
  induction f as [|f IH]; intros f' gap best_obj limit iteration init m Hle;
    [reflexivity|].
  destruct f' as [|f']; [lia|].
  rewrite !solutions_step.
  destruct (Self.solve self init m) as [[[status obj]|e] m1];
    [|destruct e; reflexivity].
  cbv zeta.
  destruct (negb _); [reflexivity|].
  destruct (beyond _ _); [reflexivity|].
  destruct (_ || _); cbn [emitted fst firstn].
  - f_equal. apply IH. lia.
  - now rewrite firstn_nil.
Qed.

Lemma solutions_stable f : forall f' gap best_obj limit iteration init m,
  (f <= f')%nat ->
  ending (Gurobi.solutions self f gap best_obj limit iteration init m)
  <> OutOfFuel ->
  Gurobi.solutions self f' gap best_obj limit iteration init m
  = Gurobi.solutions self f gap best_obj limit iteration init m.
Proof.
  induction f as [|f IH]; intros f' gap best_obj limit iteration init m Hle He;
    [now contradiction He|].
  destruct f' as [|f']; [lia|].
  rewrite !solutions_step. rewrite solutions_step in He.
  destruct (Self.solve self init m) as [[[status obj]|e] m1]; [|reflexivity].
  cbv zeta in *.
  destruct (negb _); [reflexivity|].
  destruct (beyond _ _); [reflexivity|].
  destruct (_ || _); [|reflexivity].
  cbn [ending fst snd] in He.
  rewrite (IH f') by (try lia; exact He). reflexivity.
Qed.

End EnumeratorMore.

(** X13. Every element the enumerator emits carries the status [optimal]. *)
Theorem solutions_status_optimal (self : Adapter) fuel gap best_obj limit
    iteration init m :
  Forall (fun s => sol_status s = "optimal")
         (emitted (Gurobi.solutions self fuel gap best_obj limit iteration init m)).
Proof.
  revert gap best_obj limit iteration init m.
  induction fuel as [|fuel IH]; intros gap best_obj limit iteration init m;
    [constructor|].
  rewrite solutions_step.
  destruct (Self.solve self init m) as [[[status obj]|e] m1];
    [|destruct e; constructor].
  cbv zeta.
  destruct (String.eqb status "optimal") eqn:E; cbn [negb]; [|constructor].
  apply String.eqb_eq in E.
  destruct (beyond _ _); [constructor|].
  destruct (_ || _); cbn [emitted fst].
  - constructor; [exact E|apply IH].
  - constructor; [exact E|constructor].
Qed.


(** X14. A limit of 0 is no limit: the enumeration under [limit = 0] is the
    enumeration under [limit = None], element by element, with the same end
    and the same final model. *)
Theorem solutions_limit_zero_is_none (self : Adapter) fuel gap best_obj
    iteration init m :
  Gurobi.solutions self fuel gap best_obj (Some 0%Z) iteration init m
  = Gurobi.solutions self fuel gap best_obj None iteration init m.
Proof.
  revert gap best_obj iteration init m.
  induction fuel as [|fuel IH]; intros gap best_obj iteration init m;
    [reflexivity|].
  rewrite !solutions_step.
  destruct (Self.solve self init m) as [[[status obj]|e] m1]; [|reflexivity].
  cbv zeta.
  destruct (negb _); [reflexivity|].
  destruct (beyond _ _); [reflexivity|].
  cbn [not_limit Z.eqb orb]. now rewrite IH.
Qed.


(** X15. The elements do not depend on how far the generator is driven: what
    comes out within a budget of [f] frames is the first [f] elements of what
    comes out within any larger budget, and once the generator has ended
    within [f] frames a larger budget changes nothing. *)
Theorem solutions_budget (self : Adapter) (f f' : nat) gap best_obj limit
    iteration init m :
  (f <= f')%nat ->
  emitted (Gurobi.solutions self f gap best_obj limit iteration init m)
  = firstn f (emitted (Gurobi.solutions self f' gap best_obj limit iteration
                         init m))
  /\ (ending (Gurobi.solutions self f gap best_obj limit iteration init m)
      <> OutOfFuel ->
      Gurobi.solutions self f' gap best_obj limit iteration init m
      = Gurobi.solutions self f gap best_obj limit iteration init m).
Proof.
  intros Hle. split.
  - now apply solutions_prefix.
  - now apply solutions_stable.
Qed.

Lemma solutions_budget_witness :
  Gurobi.solutions Scenario.G 9 0 None None 0 None Scenario.two_binaries
  = Gurobi.solutions Scenario.G 3 0 None None 0 None Scenario.two_binaries.
Proof.
  apply (proj2 (solutions_budget Scenario.G 3 9 0 None None 0%Z None
                  Scenario.two_binaries ltac:(lia))).
  vm_compute. discriminate.
Defined.

(** X16. Under a limit [n <> 0] that the current iteration has reached
    ([n <= iteration + 1], so [limit = 1] on a fresh call) the enumerator
    solves once: it emits at most one element and leaves the model as that
    solve left it, with no exclusion constraint added. *)
Theorem solutions_limit_one_solve (self : Adapter) fuel gap best_obj (n : Z)
    iteration init m :
  n <> 0%Z -> (n <= iteration + 1)%Z ->
  final (Gurobi.solutions self (S fuel) gap best_obj (Some n) iteration init m)
  = snd (Self.solve self init m)
  /\ (List.length
        (emitted (Gurobi.solutions self (S fuel) gap best_obj (Some n) iteration
                    init m)) <= 1)%nat.
Proof.
  intros Hn Hle. rewrite solutions_step.
  destruct (Self.solve self init m) as [[[status obj]|e] m1];
    [|destruct e; cbn; auto].
  cbv zeta.
  destruct (negb _); [cbn; auto|].
  destruct (beyond _ _); [cbn; auto|].
  cbn [not_limit below_limit].
  apply Z.eqb_neq in Hn. rewrite Hn.
  replace (iteration + 1 <? n)%Z with false by (symmetry; apply Z.ltb_ge; lia).
  cbn. auto.
Qed.


Lemma solutions_limit_one_solve_witness :
  final (Gurobi.solutions Scenario.G 4 0 None (Some 1%Z) 0 None
           Scenario.two_binaries)
  = snd (Self.solve Scenario.G None Scenario.two_binaries).
Proof.
  apply (solutions_limit_one_solve Scenario.G 3 0 None 1 0 None
           Scenario.two_binaries); lia.
Defined.

(** ** The enumerator on the Gurobi adapter: names, model, termination *)

Section Sublists.
Context {A B : Type}.

Lemma sublists_length (l : list A) :
  List.length (sublists l) = (2 ^ List.length l)%nat.
Proof.
  induction l as [|x l IH]; [reflexivity|].
  cbn [sublists List.length]. rewrite length_app, length_map, IH.
  cbn [Nat.pow]. lia.
Qed.

Lemma filter_sublists (p : A -> bool) (l : list A) : In (filter p l) (sublists l).
Proof.
  induction l as [|x l IH]; [now left|].
  cbn [filter sublists]. apply in_or_app. destruct (p x).
  - left. now apply in_map.
  - now right.
Qed.

Lemma map_filter_sublists (f : A -> B) (p : A -> bool) (l : list A) :
  In (map f (filter p l)) (sublists (map f l)).
Proof.
  induction l as [|x l IH]; [now left|].
  cbn [filter map sublists]. apply in_or_app. destruct (p x).
  - left. cbn [map]. now apply in_map.
  - now right.
Qed.

(** Filtering keeps the images distinct. *)
Lemma distinct_images_filter (keep : A -> bool) (image : A -> B) (xs : list A)
    (distinct : NoDup (map image xs)) :
  NoDup (map image (filter keep xs)).
Proof.
  revert distinct. induction xs as [|x xs IH]; intros Hd; [constructor|].
  cbn in Hd. apply NoDup_cons_iff in Hd. destruct Hd as [Hx Hxs].
  cbn [filter]. destruct (keep x); [|now apply IH].
  cbn [map]. apply NoDup_cons_iff. split; [|now apply IH].
  intros Hin. apply Hx. apply in_map_iff in Hin.
  destruct Hin as (y & E & Hy). apply filter_In in Hy.
  apply in_map_iff. exists y. tauto.
Qed.

Lemma filter_andb (p q : A -> bool) (l : list A) :
  filter (fun x => p x && q x) l = filter q (filter p l).
Proof.
  induction l as [|x l IH]; [reflexivity|].
  cbn [filter]. destruct (p x); cbn [andb filter]; [|exact IH].
  destruct (q x); now rewrite IH.
Qed.

End Sublists.

Section GurobiEnumeration.
Variable g : GurobiPy.
Variable init : option (Model -> Model).
Hypothesis Hkeeps : keeps_model init.

Lemma solve_keeps m :
  m_vars (snd (Gurobi.solve g init m)) = m_vars m
  /\ m_constrs (snd (Gurobi.solve g init m)) = m_constrs m.
Proof.
  rewrite Gurobi_solve_unfold. cbv zeta.
  destruct (run_init_keeps init Hkeeps
              (set_param "logFile" "" (set_param "outputFlag" "0" m)))
    as [Kv Kc].
  destruct (dict_get _ _ _); [destruct (_ =? _)%Z|];
    cbn [snd set_report m_vars m_constrs]; rewrite Kv, Kc; auto.
Qed.

(** The names of one element are binary names of the solved model. *)
Lemma element_names_binary status obj m1 n :
  In n (sol_names (element (Gurobi.adapter g) status obj m1)) ->
  In n (binary_names m1).
Proof.
  intros H. apply element_names_In in H.
  destruct H as (v & Hv & Hb & _ & Hn). cbn in Hv, Hb, Hn.
  unfold binary_names. apply in_map_iff. exists v. split; [exact Hn|].
  apply filter_In. auto.
Qed.

Lemma element_in_selections status obj m1 :
  NoDup (binary_names m1) ->
  In (sol_names (element (Gurobi.adapter g) status obj m1)) (selections m1).
Proof.
  intros Hn. unfold element, sol_names, selections. cbn [snd].
  apply in_map_iff.
  exists (keys (Gurobi.selected (Gurobi.adapter g) m1)). split; [reflexivity|].
  unfold Gurobi.selected.
  cbn [Self.varName Self.is_binary Self.getValue Self.variables Gurobi.adapter].
  unfold Gurobi.variables, Gurobi.is_binary.
  rewrite (filter_andb (fun v => VType_eqb (v_vtype v) BINARY)
                       (fun v => eq_one (Gurobi.getValue m1 v))).
  assert (Hk : map fst
                 (map (fun v => (Gurobi.varName v, v))
                      (filter (fun v => eq_one (Gurobi.getValue m1 v))
                         (filter (fun v => VType_eqb (v_vtype v) BINARY)
                                 (m_vars m1))))
               = map v_name
                   (filter (fun v => eq_one (Gurobi.getValue m1 v))
                      (filter (fun v => VType_eqb (v_vtype v) BINARY)
                              (m_vars m1))))
    by (rewrite map_map; reflexivity).
  rewrite (dict_of_NoDup String.eqb String.eqb_eq)
    by (rewrite Hk; apply distinct_images_filter; exact Hn).
  unfold keys. rewrite Hk. apply map_filter_sublists.
Qed.

End GurobiEnumeration.

Section OutOfFuel.
Variable self : Adapter.

(** A generator cut by the budget has emitted one element per frame. *)
Lemma out_of_fuel_full fuel : forall gap best_obj limit iteration init m,
  ending (Gurobi.solutions self fuel gap best_obj limit iteration init m)
  = OutOfFuel ->
  List.length
    (emitted (Gurobi.solutions self fuel gap best_obj limit iteration init m))
  = fuel.
Proof.
  induction fuel as [|fuel IH]; intros gap best_obj limit iteration init m;
    [reflexivity|].
  rewrite solutions_step.
  destruct (Self.solve self init m) as [[[status obj]|e] m1];
    [|destruct e; discriminate].
  cbv zeta.
  destruct (negb _); [discriminate|].
  destruct (beyond _ _); [discriminate|].
  destruct (_ || _); [|discriminate].
  cbn [ending emitted fst snd List.length]. intros H.
  now rewrite (IH _ _ _ _ _ _ H).
Qed.

End OutOfFuel.

(** X17. On the Gurobi adapter, with an [init] that leaves variables and
    constraints alone, every selection the enumerator emits is sorted, has no
    repeated name, and holds only names of binary variables of the model. *)
Theorem solutions_names (g : GurobiPy) (init : option (Model -> Model)) fuel gap
    best_obj limit iteration m :
  keeps_model init ->
  Forall (fun s => Sorted str_le (sol_names s)
                   /\ NoDup (sol_names s)
                   /\ forall n, In n (sol_names s) -> In n (binary_names m))
         (emitted (Gurobi.solutions (Gurobi.adapter g) fuel gap best_obj limit
                     iteration init m)).
Proof.
  intros Hk. revert gap best_obj limit iteration m.
  induction fuel as [|fuel IH]; intros gap best_obj limit iteration m;
    [constructor|].
  rewrite solutions_step.
  change (Self.solve (Gurobi.adapter g) init m) with (Gurobi.solve g init m).
  destruct (solve_keeps g init Hk m) as [Kv _].
  destruct (Gurobi.solve g init m) as [[[status obj]|e] m1];
    [|destruct e; constructor].
  cbn [snd] in Kv. cbv zeta.
  assert (Hy : Sorted str_le (sol_names (element (Gurobi.adapter g) status obj m1))
               /\ NoDup (sol_names (element (Gurobi.adapter g) status obj m1))
               /\ forall n,
                    In n (sol_names (element (Gurobi.adapter g) status obj m1)) ->
                    In n (binary_names m)).
  { split; [apply sorted_tuple_Sorted|]. split; [apply sorted_tuple_NoDup|].
    intros n Hn. rewrite <- (binary_names_vars m m1 Kv).
    now apply (element_names_binary g status obj). }
  destruct (negb _); [constructor|].
  destruct (beyond _ _); [constructor|].
  destruct (_ || _); cbn [emitted fst].
  - constructor; [exact Hy|].
    specialize (IH gap (Some match best_obj with None => obj | Some b => b end)
                   limit (iteration + 1)%Z (cut (Gurobi.adapter g) m1)).
    rewrite (binary_names_vars m1 _ (cut_vars g m1)) in IH.
    rewrite (binary_names_vars m m1 Kv) in IH. exact IH.
  - constructor; [exact Hy|constructor].
Qed.

Lemma solutions_names_witness :
  Forall (fun s => Sorted str_le (sol_names s)
                   /\ NoDup (sol_names s)
                   /\ forall n, In n (sol_names s) ->
                                In n (binary_names Scenario.two_binaries))
         (emitted (Gurobi.solutions Scenario.G 6 0 None None 0 None
                     Scenario.two_binaries)).
Proof.
  apply (solutions_names Exhaustive.gurobipy None 6 0 None None 0%Z
           Scenario.two_binaries).
  intros f E. discriminate E.
Defined.

(** X18. The enumeration changes the model only by adding constraints: on the
    Gurobi adapter, with an [init] that leaves variables and constraints
    alone, the final model has the variables it started with and its
    constraints are the initial ones followed by unnamed [<=] constraints, at
    most one for each element emitted. *)
Theorem solutions_only_adds_cuts (g : GurobiPy) (init : option (Model -> Model))
    fuel gap best_obj limit iteration m :
  keeps_model init ->
  let t := Gurobi.solutions (Gurobi.adapter g) fuel gap best_obj limit iteration
             init m in
  m_vars (final t) = m_vars m
  /\ exists added,
       m_constrs (final t) = (m_constrs m ++ added)%list
       /\ (List.length added <= List.length (emitted t))%nat
       /\ Forall (fun c => snd c = None /\ c_sense (fst c) = LE) added.
Proof.
  intros Hk. cbv zeta. revert gap best_obj limit iteration m.
  induction fuel as [|fuel IH]; intros gap best_obj limit iteration m.
  - split; [reflexivity|]. exists []. cbn. rewrite app_nil_r. auto.
  - rewrite solutions_step.
    change (Self.solve (Gurobi.adapter g) init m) with (Gurobi.solve g init m).
    destruct (solve_keeps g init Hk m) as [Kv Kc].
    destruct (Gurobi.solve g init m) as [[[status obj]|e] m1].
    + cbn [snd] in Kv, Kc. cbv zeta.
      assert (Stop : forall l,
                 m_vars (final (l, StopIteration, m1)) = m_vars m
                 /\ exists added,
                      m_constrs (final (l, StopIteration, m1))
                      = (m_constrs m ++ added)%list
                      /\ (List.length added <= List.length (emitted (l, StopIteration, m1)))%nat
                      /\ Forall (fun c : TempConstr * option string =>
                                   snd c = None /\ c_sense (fst c) = LE) added).
      { intros l. split; [exact Kv|]. exists []. cbn.
        rewrite app_nil_r. split; [exact Kc|]. split; [lia|constructor]. }
      destruct (negb _); [apply Stop|].
      destruct (beyond _ _); [apply Stop|].
      destruct (_ || _); [|apply Stop].
      destruct (IH gap (Some match best_obj with None => obj | Some b => b end)
                   limit (iteration + 1)%Z (cut (Gurobi.adapter g) m1))
        as (Hv & added & Hc & Hl & Hf).
      cbn [final emitted fst snd].
      split; [now rewrite Hv, cut_vars|].
      exists ((Gurobi.exclusion (Gurobi.adapter g)
                 (Gurobi.selected (Gurobi.adapter g) m1), None) :: added).
      split; [|split].
      * rewrite Hc, cut_constrs, Kc, <- app_assoc. reflexivity.
      * cbn [List.length]. lia.
      * constructor; [split; reflexivity|exact Hf].
    + cbn [snd] in Kv, Kc.
      assert (R : forall e',
                 m_vars (final (@nil Solution, e', m1)) = m_vars m
                 /\ exists added,
                      m_constrs (final (@nil Solution, e', m1))
                      = (m_constrs m ++ added)%list
                      /\ (List.length added
                          <= List.length (emitted (@nil Solution, e', m1)))%nat
                      /\ Forall (fun c : TempConstr * option string =>
                                   snd c = None /\ c_sense (fst c) = LE) added).
      { intros e'. split; [exact Kv|]. exists []. cbn.
        rewrite app_nil_r. split; [exact Kc|]. split; [lia|constructor]. }
      destruct e; apply R.
Qed.

Lemma solutions_only_adds_cuts_witness :
  m_vars (final (Gurobi.solutions Scenario.G 6 0 None None 0 None
                    Scenario.two_binaries))
  = m_vars Scenario.two_binaries.
Proof.
  apply (solutions_only_adds_cuts Exhaustive.gurobipy None 6 0 None None 0%Z
           Scenario.two_binaries).
  intros f E. discriminate E.
Defined.

(** X19. The enumeration terminates.  On the Gurobi adapter, when the
    engine's optimal solutions satisfy the model's constraints with 0/1
    values on the binary variables, [init] leaves variables and constraints
    alone, and the [n] binary variables have pairwise distinct names, the
    enumerator emits at most [2 ^ n] elements, each one of the selections the
    model allows, and has ended once more than [2 ^ n] frames are allowed. *)
Theorem solutions_terminate (g : GurobiPy) (init : option (Model -> Model)) fuel
    gap best_obj limit iteration m :
  exact g -> keeps_model init -> NoDup (binary_names m) ->
  let t := Gurobi.solutions (Gurobi.adapter g) fuel gap best_obj limit iteration
             init m in
  Forall (fun s => In (sol_names s) (selections m)) (emitted t)
  /\ (List.length (emitted t) <= 2 ^ List.length (binary_names m))%nat
  /\ ((2 ^ List.length (binary_names m) < fuel)%nat -> ending t <> OutOfFuel).
Proof.
  intros He Hk Hn. cbv zeta.
  assert (Hin : Forall (fun s => In (sol_names s) (selections m))
                  (emitted (Gurobi.solutions (Gurobi.adapter g) fuel gap best_obj
                              limit iteration init m))).
  { revert gap best_obj limit iteration m Hn.
    induction fuel as [|fuel IH]; intros gap best_obj limit iteration m Hn;
      [constructor|].
    rewrite solutions_step.
    change (Self.solve (Gurobi.adapter g) init m) with (Gurobi.solve g init m).
    destruct (solve_keeps g init Hk m) as [Kv _].
    destruct (Gurobi.solve g init m) as [[[status obj]|e] m1];
      [|destruct e; constructor].
    cbn [snd] in Kv. cbv zeta.
    assert (Hn1 : NoDup (binary_names m1))
      by now rewrite (binary_names_vars m m1 Kv).
    assert (Es : selections m1 = selections m)
      by (unfold selections; now rewrite (binary_names_vars m m1 Kv)).
    pose proof (element_in_selections g status obj m1 Hn1) as Hy.
    rewrite Es in Hy.
    destruct (negb _); [constructor|].
    destruct (beyond _ _); [constructor|].
    destruct (_ || _); cbn [emitted fst].
    - constructor; [exact Hy|].
      specialize (IH gap (Some match best_obj with None => obj | Some b => b end)
                     limit (iteration + 1)%Z (cut (Gurobi.adapter g) m1)).
      assert (Ec : selections (cut (Gurobi.adapter g) m1) = selections m)
        by (unfold selections;
            now rewrite (binary_names_vars m1 _ (cut_vars g m1)),
                        (binary_names_vars m m1 Kv)).
      rewrite Ec in IH. apply IH.
      now rewrite (binary_names_vars m1 _ (cut_vars g m1)).
    - constructor; [exact Hy|constructor]. }
  assert (Hlen : (List.length
                    (emitted (Gurobi.solutions (Gurobi.adapter g) fuel gap
                                best_obj limit iteration init m))
                  <= 2 ^ List.length (binary_names m))%nat).
  { rewrite <- (sublists_length (binary_names m)).
    rewrite <- (length_map (fun k => sorted_tuple (py_set k))
                           (sublists (binary_names m))).
    fold (selections m).
    rewrite <- (length_map sol_names).
    apply NoDup_incl_length.
    - now apply solutions_NoDup.
    - intros names H. apply in_map_iff in H. destruct H as (s & <- & Hs).
      rewrite Forall_forall in Hin. now apply Hin. }
  split; [exact Hin|]. split; [exact Hlen|].
  intros Hf Hend. apply out_of_fuel_full in Hend. lia.
Qed.

Lemma solutions_terminate_witness :
  (List.length (emitted (Gurobi.solutions Scenario.G 6 0 None None 0 None
                           Scenario.two_binaries))
   <= 2 ^ List.length (binary_names Scenario.two_binaries))%nat.
Proof.
  apply (solutions_terminate Exhaustive.gurobipy None 6 0 None None 0%Z
           Scenario.two_binaries).
  - exact Exhaustive_exact.
  - intros f E. discriminate E.
  - vm_compute. repeat constructor; cbn; intuition discriminate.
Defined.

(** ** The helpers and the enumerator across the adapters *)

Section Agreement.
Variable g : GurobiPy.
Variable p : PySCIPOpt.
Variable o : ORTools.
Variable SOLUTION_PRECISION : Q.

Lemma abssum_loop_SCIP coeffs vars : forall i vv m,
  Gurobi.abssum_loop (SCIP.adapter p) coeffs i vars vv m
  = Gurobi.abssum_loop (Gurobi.adapter g) coeffs i vars vv m.
Proof.
  induction vars as [|v vars IH]; intros i vv m; [reflexivity|].
  rewrite abssum_loop_cons. cbv zeta. rewrite <- IH. reflexivity.
Qed.

Lemma abssum_loop_CBC coeffs vars : forall i vv m,
  Gurobi.abssum_loop (CBC.adapter o SOLUTION_PRECISION) coeffs i vars vv m
  = Gurobi.abssum_loop (Gurobi.adapter g) coeffs i vars vv m.
Proof.
  induction vars as [|v vars IH]; intros i vv m; [reflexivity|].
  rewrite abssum_loop_cons. cbv zeta. rewrite <- IH. reflexivity.
Qed.

Lemma prod_loop_any (add : TempConstr -> option string -> Model -> Model) res terms :
  (forall c n m, add c n m = Gurobi.addConstr c n m) ->
  forall m,
    fold_left (fun m v => add (le_ (EVar res) (EVar v)) None m) terms m
    = fold_left (fun m v => Gurobi.addConstr (le_ (EVar res) (EVar v)) None m)
                terms m.
Proof.
  intros H. induction terms as [|v terms IH]; intros m; [reflexivity|].
  cbn [fold_left]. now rewrite H, IH.
Qed.

End Agreement.

(** X20. [abssum] and [prod] build the same thing on the SCIP and the CBC
    adapter as on the Gurobi adapter: the same returned expression or
    variable and the same model. *)
Theorem helpers_agree (g : GurobiPy) (p : PySCIPOpt) (o : ORTools)
    (SOLUTION_PRECISION : Q) (vars : list Var)
    (coeffs : option (list (string * Q))) (res : Var) (terms : list Var)
    (m : Model) :
  Gurobi.abssum (SCIP.adapter p) vars coeffs m
  = Gurobi.abssum (Gurobi.adapter g) vars coeffs m
  /\ Gurobi.abssum (CBC.adapter o SOLUTION_PRECISION) vars coeffs m
     = Gurobi.abssum (Gurobi.adapter g) vars coeffs m
  /\ Gurobi.prod (SCIP.adapter p) res terms m
     = Gurobi.prod (Gurobi.adapter g) res terms m
  /\ Gurobi.prod (CBC.adapter o SOLUTION_PRECISION) res terms m
     = Gurobi.prod (Gurobi.adapter g) res terms m.
Proof.
  split; [|split; [|split]].
  - unfold Gurobi.abssum. rewrite (abssum_loop_SCIP g p). reflexivity.
  - unfold Gurobi.abssum.
    rewrite (abssum_loop_CBC g o SOLUTION_PRECISION). reflexivity.
  - unfold Gurobi.prod.
    cbn [Self.addConstr Self.quicksum SCIP.adapter Gurobi.adapter].
    rewrite (prod_loop_any SCIP.addConstr res terms) by reflexivity.
    reflexivity.
  - unfold Gurobi.prod.
    cbn [Self.addConstr Self.quicksum CBC.adapter Gurobi.adapter].
    rewrite (prod_loop_any CBC.addConstr res terms) by reflexivity.
    reflexivity.
Qed.

(** X21. On an adapter that inherits [prod] and [solutions] but has the
    [addConstr] and the [solve] of [MIPCL], [prod] registers nothing, and the
    enumerator emits nothing and hands the attribute error of [solve] to its
    consumer: only [NoSolutionsError] is caught. *)
Theorem MIPCL_inherited (base : Adapter) (mip : MipShell) (res : Var)
    (terms : list Var) fuel gap best_obj limit iteration init (m : Model) :
  let self := override base MIPCL.addConstr (MIPCL.solve mip) in
  Gurobi.prod self res terms m = (res, m)
  /\ emitted (Gurobi.solutions self (S fuel) gap best_obj limit iteration init m)
     = []
  /\ ending (Gurobi.solutions self (S fuel) gap best_obj limit iteration init m)
     = Raised (AttributeError "is_solutionOptimal").
Proof.
  cbv zeta. split; [|split].
  - unfold Gurobi.prod. cbn [Self.addConstr override].
    unfold MIPCL.addConstr. f_equal.
    induction terms as [|v terms IH]; [reflexivity|exact IH].
  - rewrite solutions_step. reflexivity.
  - rewrite solutions_step. reflexivity.
Qed.

(** X22. [MIPCL.is_binary] never answers: its body reads the name [var],
    which is bound neither in the function nor in the module, and raises
    [NameError]. *)
Theorem MIPCL_is_binary_raises (v : Var) :
  MIPCL_is_binary v = Raise (NameError "var")
  /\ PyScope.load_name [("self", PyScope.OImported "self");
                        ("v", PyScope.OImported "v")] "v"
     = Ret (PyScope.OImported "v").
Proof. split; reflexivity. Qed.

(** X23. On the CBC adapter a solution that fails [VerifySolution] ends the
    enumeration the way infeasibility does: nothing is emitted for that
    solve and no error reaches the consumer, whatever status the engine
    reported. *)
Theorem CBC_unverified_ends (o : ORTools) (SOLUTION_PRECISION : Q) fuel gap
    best_obj limit iteration init (m : Model) (r : Report) :
  m_report (snd (CBC.solve o init m)) = Some r ->
  r_VerifySolution r SOLVER_PRECISON true = false ->
  let t := Gurobi.solutions (CBC.adapter o SOLUTION_PRECISION) (S fuel) gap
             best_obj limit iteration init m in
  emitted t = [] /\ ending t = StopIteration.
Proof.
  intros Hr Hv. cbv zeta.
  destruct (CBC_solve_cases o init m r Hr) as [Hraise _].
  specialize (Hraise (or_intror Hv)).
  rewrite solutions_step.
  change (Self.solve (CBC.adapter o SOLUTION_PRECISION) init m)
    with (CBC.solve o init m).
  destruct (CBC.solve o init m) as [res m1]. cbn [fst] in Hraise. subst res.
  split; reflexivity.
Qed.

Lemma CBC_unverified_ends_witness :
  emitted (Gurobi.solutions (CBC.adapter Scenario.unverified_ortools (1 # 100))
             3 0 None None 0 None (new_model "m")) = [].
Proof.
  apply (CBC_unverified_ends Scenario.unverified_ortools (1 # 100) 2 0 None None
           0%Z None (new_model "m") _ eq_refl eq_refl).
Defined.

(** ** [setObjective] *)

(** X24. [setObjective] minimizes exactly when [method] is the string [min]
    and maximizes for every other string; it replaces the objective, so the
    last one set is the one in force, and leaves variables and constraints
    alone.  The Gurobi, SCIP and CBC adapters do the same. *)
Theorem setObjective_direction (objective earlier : Expr) (method first : string)
    (m : Model) :
  let m' := Gurobi.setObjective objective method m in
  SCIP.setObjective objective method m = m'
  /\ CBC.setObjective objective method m = m'
  /\ (method = "min" -> m_objective m' = Some (objective, MINIMIZE))
  /\ (method <> "min" -> m_objective m' = Some (objective, MAXIMIZE))
  /\ Gurobi.setObjective objective method (Gurobi.setObjective earlier first m)
     = m'
  /\ m_vars m' = m_vars m
  /\ m_constrs m' = m_constrs m.
Proof.
  cbv zeta.
  unfold Gurobi.setObjective, SCIP.setObjective, CBC.setObjective, Gurobi.update.
  split; [reflexivity|].
  split; [destruct (String.eqb method "min"); reflexivity|].
  split; [intros ->; reflexivity|].
  split; [intros H; apply String.eqb_neq in H; now rewrite H|].
  repeat split.
Qed.

Lemma setObjective_direction_witness :
  m_objective (Gurobi.setObjective (EConst 1) "MIN" (new_model "m"))
  = Some (EConst 1, MAXIMIZE).
Proof.
  apply (proj1 (proj2 (proj2 (proj2
           (setObjective_direction (EConst 1) (EConst 0) "MIN" "min"
              (new_model "m")))))).
  discriminate.
Defined.
